(** * SwissJudgementPrediction: the hierarchical encoder and the experiment grid

    A shallow embedding of [HierarchicalBert.py] (the positional table
    builder [sinusoidal_init], the constructor and the forward pass of
    [HierarchicalBert]) and of [generate_experiments.py], followed by the
    properties of the specification proved (or refuted) on it.

    Tensors are contiguous row-major buffers with a shape, as
    [x.contiguous()] has them; the torch operations the code calls are
    written out on that representation.  Integer tensors are int64 and hold
    [Z] with the wrap-around written out.  Floating-point numbers, the base
    encoder and the torch modules the constructor allocates are kept
    abstract in the classes [Floats] and [Torch]. *)

From Stdlib Require Import String Ascii.
From Stdlib Require Import ZArith Lia Bool Arith PeanoNat List.
Import ListNotations.

Set Implicit Arguments.

(* ================================================================= *)
(** ** Exceptions and results *)

Inductive exn : Type :=
| AssertionError
| AttributeError
| IndexError
| KeyError
| UnboundLocalError
| RuntimeError_shape_invalid      (* view: shape is invalid for input size *)
| RuntimeError_size_mismatch      (* broadcasting / cat: sizes must match *)
| RuntimeError_other.

Inductive result (A : Type) : Type :=
| Ok (a : A)
| Raise (e : exn).
Arguments Ok {A} a.
Arguments Raise {A} e.

Definition rbind {A B} (r : result A) (k : A -> result B) : result B :=
  match r with
  | Ok a => k a
  | Raise e => Raise e
  end.

Declare Scope result_scope.
Delimit Scope result_scope with res.
Notation "x <- c ;; k" := (rbind c (fun x => k))
  (at level 61, c at next level, right associativity) : result_scope.

(* ================================================================= *)
(** ** Contiguous tensors *)

Record tensor (A : Type) : Type := Tensor { shape : list nat; data : list A }.
Arguments Tensor {A} shape data.

Definition numel (sh : list nat) : nat := fold_right Nat.mul 1 sh.

(** A tensor is well formed when its buffer has as many items as its shape
    announces. *)
Definition wf {A} (t : tensor A) : Prop := length (data t) = numel (shape t).

Definition tabulate {A} (n : nat) (f : nat -> A) : list A := map f (seq 0 n).

Section TensorOps.
Context {A : Type}.
Variable dflt : A.

(** Item at a flat (row-major) offset. *)
Definition item (t : tensor A) (q : nat) : A := nth q (data t) dflt.

(** [x.contiguous()] : our tensors are always contiguous. *)
Definition contiguous (t : tensor A) : tensor A := t.

(** [x.size(i)], negative [i] counting from the last axis. *)
Definition norm_dim (rank : nat) (i : Z) : result nat :=
    if (0 <=? i)%Z && (i <? Z.of_nat rank)%Z then Ok (Z.to_nat i)
    else if (i <? 0)%Z && (- Z.of_nat rank <=? i)%Z then Ok (Z.to_nat (Z.of_nat rank + i))
    else Raise IndexError.

Definition size (t : tensor A) (i : Z) : result nat :=
    (k <- norm_dim (length (shape t)) i ;;
     Ok (nth k (shape t) 0))%res.

(** [x.view(d1, ..., dn)], at most one [di] being [-1].  The buffer is
      shared; only the shape changes, and it must account for every item. *)
Definition infer_size (dims : list Z) (n : nat) : result (list nat) :=
    if existsb (fun d => (d <? -1)%Z) dims then Raise RuntimeError_other
    else
      let known := map Z.to_nat (filter (fun d => negb (d =? -1)%Z) dims) in
      let p := numel known in
      match length (filter (fun d => (d =? -1)%Z) dims) with
      | 0 => if p =? n then Ok known else Raise RuntimeError_shape_invalid
      | 1 => if (p =? 0) || negb (n mod p =? 0) then Raise RuntimeError_shape_invalid
             else Ok (map (fun d => if (d =? -1)%Z then n / p else Z.to_nat d) dims)
      | _ => Raise RuntimeError_other
      end.

Definition view (t : tensor A) (dims : list Z) : result (tensor A) :=
    (sh <- infer_size dims (numel (shape t)) ;;
     Ok (Tensor sh (data t)))%res.

(** Offset of the item at position [j] of axis [k], for the output
      offset [q] of an operation that removes axis [k]: [n] is the size of
      the axis and [inner] the number of items below it. *)
Definition axis_offset (n inner q j : nat) : nat :=
    (q / inner * n + j) * inner + q mod inner.

Definition drop_axis (k : nat) (sh : list nat) : list nat :=
    firstn k sh ++ skipn (S k) sh.

(** [x.select(k, i)], the meaning of an integer at axis [k] of a basic
      index: [x[:, :, 0]] is [select 2 0 x]. *)
Definition select (k : Z) (i : Z) (t : tensor A) : result (tensor A) :=
    (k' <- norm_dim (length (shape t)) k ;;
     let n := nth k' (shape t) 0 in
     i' <- norm_dim n i ;;
     let inner := numel (skipn (S k') (shape t)) in
     let sh := drop_axis k' (shape t) in
     Ok (Tensor sh (tabulate (numel sh) (fun q => item t (axis_offset n inner q i')))))%res.

(** [torch.cat((a, b), -1)] *)
Definition cat_last (a b : tensor A) : result (tensor A) :=
    match rev (shape a), rev (shape b) with
    | la :: ra, lb :: rb =>
        if list_eq_dec Nat.eq_dec ra rb then
          let sh := rev ra ++ [la + lb] in
          Ok (Tensor sh (tabulate (numel sh) (fun q =>
                let r := q / (la + lb) in
                let c := q mod (la + lb) in
                if c <? la then item a (r * la + c) else item b (r * lb + (c - la)))))
        else Raise RuntimeError_size_mismatch
    | _, _ => Raise RuntimeError_other
    end.

End TensorOps.

(* ================================================================= *)
(** ** Broadcasting *)

(** Multi-index of a flat offset and back, row-major. *)
Fixpoint unravel (sh : list nat) (q : nat) : list nat :=
  match sh with
  | [] => []
  | n :: rest => (q / numel rest) mod n :: unravel rest q
  end.

Fixpoint ravel (sh idx : list nat) : nat :=
  match sh, idx with
  | _ :: rest, i :: idx' => i * numel rest + ravel rest idx'
  | _, _ => 0
  end.

Definition broadcast_dim (a b : nat) : result nat :=
  if a =? b then Ok a
  else if a =? 1 then Ok b
  else if b =? 1 then Ok a
  else Raise RuntimeError_size_mismatch.

(** Shapes are aligned on their last axis; [ra] and [rb] are the reversed
    shapes. *)
Fixpoint broadcast_rev (ra rb : list nat) : result (list nat) :=
  match ra, rb with
  | [], _ => Ok rb
  | _, [] => Ok ra
  | a :: ra', b :: rb' =>
      (d <- broadcast_dim a b ;;
       rest <- broadcast_rev ra' rb' ;;
       Ok (d :: rest))%res
  end.

Definition broadcast_shapes (sa sb : list nat) : result (list nat) :=
  (r <- broadcast_rev (rev sa) (rev sb) ;; Ok (rev r))%res.

(** Offset, in an operand of shape [sa], of the item that is broadcast to
    the multi-index [idx] of the result: leading axes the operand lacks are
    dropped, and an axis of size 1 is read at index 0. *)
Definition bcast_offset (sa : list nat) (idx : list nat) : nat :=
  let idx' := skipn (length idx - length sa) idx in
  ravel sa (map (fun p => if fst p =? 1 then 0 else snd p) (combine sa idx')).

Section Pointwise.
Context {A : Type}.
Variable dflt : A.
Variable op : A -> A -> A.

(** [a op b] with broadcasting, into a new tensor. *)
Definition pointwise (a b : tensor A) : result (tensor A) :=
    (sh <- broadcast_shapes (shape a) (shape b) ;;
     Ok (Tensor sh (tabulate (numel sh) (fun q =>
           let idx := unravel sh q in
           op (item dflt a (bcast_offset (shape a) idx))
              (item dflt b (bcast_offset (shape b) idx))))))%res.

(** [a op= b], in place: [b] is broadcast to the shape of [a], which
      cannot change. *)
Definition pointwise_ (a b : tensor A) : result (tensor A) :=
    (sh <- broadcast_shapes (shape a) (shape b) ;;
     if list_eq_dec Nat.eq_dec sh (shape a) then pointwise a b
     else Raise RuntimeError_size_mismatch)%res.

(** Reduction of axis [k] by [op], as [torch.max(x, k)] does for
      [op = max]; an axis of size 0 cannot be reduced. *)
Definition reduce_dim (k : Z) (t : tensor A) : result (tensor A) :=
    (k' <- norm_dim (length (shape t)) k ;;
     let n := nth k' (shape t) 0 in
     let inner := numel (skipn (S k') (shape t)) in
     let sh := drop_axis k' (shape t) in
     match n with
     | 0 => Raise IndexError
     | S m =>
         Ok (Tensor sh (tabulate (numel sh) (fun q =>
               fold_left op
                 (map (fun j => item dflt t (axis_offset n inner q j)) (seq 1 m))
                 (item dflt t (axis_offset n inner q 0)))))
     end)%res.
End Pointwise.

(* ================================================================= *)
(** ** int64 tensors *)

Definition wrap64 (z : Z) : Z := ((z + 2 ^ 63) mod 2 ^ 64 - 2 ^ 63)%Z.

Definition int64 (z : Z) : Prop := (- 2 ^ 63 <= z < 2 ^ 63)%Z.

Definition Zsum (l : list Z) : Z := fold_left Z.add l 0%Z.

(** [torch.sum(x, k)] on an int64 tensor. *)
Definition sum_dim (k : Z) (t : tensor Z) : result (tensor Z) :=
  (k' <- norm_dim (length (shape t)) k ;;
   let n := nth k' (shape t) 0 in
   let inner := numel (skipn (S k') (shape t)) in
   let sh := drop_axis k' (shape t) in
   Ok (Tensor sh (tabulate (numel sh) (fun q =>
         wrap64 (Zsum (map (fun j => item 0%Z t (axis_offset n inner q j)) (seq 0 n)))))))%res.

(** [(x != 0).to(x.dtype)] *)
Definition ne_zero (t : tensor Z) : tensor Z :=
  Tensor (shape t) (map (fun z => if (z =? 0)%Z then 0%Z else 1%Z) (data t)).

(** [torch.arange(lo, hi)] *)
Definition arange (lo hi : nat) : tensor Z :=
  Tensor [hi - lo] (map Z.of_nat (seq lo (hi - lo))).

Definition mul64 (a b : tensor Z) : result (tensor Z) :=
  pointwise 0%Z (fun x y => wrap64 (x * y)) a b.

(* ================================================================= *)
(** ** What the code takes from numpy and torch *)

(** Double-precision and single-precision numbers with the operations
    [sinusoidal_init] and the forward pass apply to them. *)
Class Floats : Type := {
  F64 : Type;
  F32 : Type;
  f64_zero : F64;                       (* an item of [np.zeros] *)
  f64_of_int : Z -> F64;                (* a Python int used as a double *)
  f64_div : F64 -> F64 -> F64;
  f64_pow : F64 -> F64 -> F64;          (* [np.power] *)
  f64_sin : F64 -> F64;                 (* [np.sin] *)
  f64_cos : F64 -> F64;                 (* [np.cos] *)
  f32_of_f64 : F64 -> F32;              (* [.type(torch.FloatTensor)] *)
  f32_add : F32 -> F32 -> F32;
  f32_max : F32 -> F32 -> F32
}.

(** The zero of the working precision: the cast of the double [0.0]. *)
Definition f32_zero `{Floats} : F32 := f32_of_f64 f64_zero.

(** A torch module, seen through its forward call. *)
Definition module `{Floats} : Type := tensor F32 -> result (tensor F32).

Module Config.
Record t `{Floats} : Type := Make {
    model_type : string;
    hidden_size : nat;
    num_attention_heads : nat;
    intermediate_size : nat;
    hidden_act : string;
    hidden_dropout_prob : F64;
    layer_norm_eps : F64
  }.
End Config.

(** The modules the constructor allocates, each with the parameters torch
    gave it when it was allocated. *)
Class Torch `{Floats} : Type := {
(** [nn.LSTM(input_size, hidden_size, bidirectional=True, num_layers=1,
      batch_first=True)]; the call returns item 0 of the module's result,
      the per-timestep outputs. *)
  nn_LSTM : nat -> nat -> module;
(** [nn.Linear(in_features, out_features)] *)
  nn_Linear : nat -> nat -> module;
(** [nn.Transformer(d_model, nhead, dim_feedforward, activation, dropout,
      layer_norm_eps, batch_first=True, num_encoder_layers=2,
      num_decoder_layers=0).encoder] *)
  nn_Transformer_encoder : nat -> nat -> nat -> string -> F64 -> F64 -> module
}.

Section Model.
Context `{FL : Floats} `{TO : !Torch}.

(** The base encoder: its configuration and its call on a flat batch
      [(input_ids, attention_mask, token_type_ids)], which returns item 0
      of the encoder's result, the per-token hidden states. *)
Record Encoder : Type := {
    config : Config.t;
    encoder_call : tensor Z -> tensor Z -> tensor Z -> result (tensor F32)
  }.

(** [torch.nn.Parameter]: a tensor with its [requires_grad] flag. *)
Record Param : Type := { value : tensor F32; requires_grad : bool }.

(** [nn.Embedding] *)
Record Embedding : Type := {
    num_embeddings : nat;
    embedding_dim : nat;
    padding_idx : option nat;
    weight : Param
  }.

(** [nn.Embedding(num_embeddings, embedding_dim, padding_idx=..., _weight=w)]:
      torch wraps the given table in a [Parameter], which requires a
      gradient unless the module is told to freeze it. *)
Definition nn_Embedding (num dim : nat) (pad : option nat) (w : tensor F32) : Embedding :=
    {| num_embeddings := num; embedding_dim := dim; padding_idx := pad;
       weight := {| value := w; requires_grad := true |} |}.

(** The call of an [nn.Embedding]: row [idx[q]] of the table for every
      item of the index tensor. *)
Definition embedding (e : Embedding) (idx : tensor Z) : result (tensor F32) :=
    let w := value (weight e) in
    let dim := nth 1 (shape w) 0 in
    let num := nth 0 (shape w) 0 in
    if forallb (fun z => (0 <=? z)%Z && (z <? Z.of_nat num)%Z) (data idx) then
      let sh := shape idx ++ [dim] in
      Ok (Tensor sh (tabulate (numel sh) (fun q =>
            item f32_zero w (Z.to_nat (item 0%Z idx (q / dim)) * dim + q mod dim))))
    else Raise IndexError.

(* --------------------------------------------------------------- *)
(** *** [sinusoidal_init] *)

Definition mapi {X Y} (f : nat -> X -> Y) (l : list X) : list Y :=
    map (fun p => f (fst p) (snd p)) (combine (seq 0 (length l)) l).

(** [arr[r0:, c0::step] = f(arr[r0:, c0::step])] on a 2-D array. *)
Definition update_slice (r0 c0 step : nat) (f : F64 -> F64)
             (arr : list (list F64)) : list (list F64) :=
    mapi (fun r row =>
            if r0 <=? r then
              mapi (fun c x => if (c0 <=? c) && ((c - c0) mod step =? 0) then f x else x) row
            else row) arr.

(** [2 * i / embedding_dim] divides two Python ints into a double, and
    [pos / np.power(...)] divides an int by a double. *)
Definition sinusoidal_init (num_embeddings embedding_dim : nat) : result (tensor F32) :=
    (* keep dim 0 for padding token position encoding zero vector *)
    let position_enc :=
      map (fun pos =>
             if negb (pos =? 0) then
               map (fun i =>
                      f64_div (f64_of_int (Z.of_nat pos))
                        (f64_pow (f64_of_int 10000)
                           (f64_div (f64_of_int (2 * Z.of_nat i))
                                    (f64_of_int (Z.of_nat embedding_dim)))))
                   (seq 0 embedding_dim)
             else repeat f64_zero embedding_dim)
          (seq 0 num_embeddings) in
    match position_enc with
    | [] => Raise IndexError   (* the array is 1-D: [position_enc[1:, 0::2]] has too many indices *)
    | _ =>
        let position_enc := update_slice 1 0 2 f64_sin position_enc in  (* dim 2i *)
        let position_enc := update_slice 1 1 2 f64_cos position_enc in  (* dim 2i+1 *)
        Ok (Tensor [num_embeddings; embedding_dim]
                   (map f32_of_f64 (concat position_enc)))
    end.

(* --------------------------------------------------------------- *)
(** *** The [HierarchicalBert] object *)

Record HierarchicalBert : Type := {
  encoder : Encoder;
  hidden_size : nat;
  max_segments : nat;
  max_segment_length : nat;
  seg_encoder_type : string;
  seg_encoder : option module;
  down_project : option module;
  seg_pos_embeddings : option Embedding
}.

Record SimpleOutput : Type := {
  last_hidden_state : option (tensor F32);
  past_key_values : option (list (list (tensor F32)));
  hidden_states : option (tensor F32);
  attentions : option (list (tensor F32));
  cross_attentions : option (list (tensor F32))
}.

Definition supported_models : list string :=
  ["bert"; "camembert"; "xlm-roberta"; "roberta"]%string.

(** [HierarchicalBert.__init__] *)
Definition init (encoder : Encoder) (max_segments max_segment_length : nat)
           (seg_encoder_type : string) : result HierarchicalBert :=
  let cfg := config encoder in
  (* other models are not supported so far *)
  if negb (existsb (String.eqb (Config.model_type cfg)) supported_models)
  then Raise AssertionError
  else
    let hidden_size := Config.hidden_size cfg in
    let self :=
      {| encoder := encoder; hidden_size := hidden_size;
         max_segments := max_segments; max_segment_length := max_segment_length;
         seg_encoder_type := seg_encoder_type;
         seg_encoder := None; down_project := None; seg_pos_embeddings := None |} in
    let self :=
      if (seg_encoder_type =? "lstm")%string then
        {| encoder := encoder; hidden_size := hidden_size;
           max_segments := max_segments; max_segment_length := max_segment_length;
           seg_encoder_type := seg_encoder_type;
           seg_encoder := Some (nn_LSTM (Config.hidden_size cfg) (Config.hidden_size cfg));
           down_project := Some (nn_Linear (2 * hidden_size) hidden_size);
           seg_pos_embeddings := seg_pos_embeddings self |}
      else self in
    if (seg_encoder_type =? "transformer")%string then
      (weight <- sinusoidal_init (max_segments + 1) (Config.hidden_size cfg) ;;
       Ok {| encoder := encoder; hidden_size := hidden_size;
             max_segments := max_segments; max_segment_length := max_segment_length;
             seg_encoder_type := seg_encoder_type;
             seg_encoder :=
               Some (nn_Transformer_encoder (Config.hidden_size cfg)
                       (Config.num_attention_heads cfg) (Config.intermediate_size cfg)
                       (Config.hidden_act cfg) (Config.hidden_dropout_prob cfg)
                       (Config.layer_norm_eps cfg));
             down_project := down_project self;
             seg_pos_embeddings :=
               Some (nn_Embedding (max_segments + 1) (Config.hidden_size cfg) (Some 0) weight) |})%res
    else Ok self.

(* --------------------------------------------------------------- *)
(** *** The forward pass, as a computation on the object *)

(** What a forward call does to the world outside its local variables:
    it calls the sub-modules of the object. *)
Inductive event : Type :=
| Call_encoder (input_ids attention_mask token_type_ids : tensor Z)
| Call_seg_encoder (x : tensor F32)
| Call_down_project (x : tensor F32)
| Call_seg_pos_embeddings (idx : tensor Z).

(** The state a call runs in: the object [self], with the tensors it
    owns, and the calls made so far. *)
Record state : Type := { self : HierarchicalBert; trace : list event }.

Definition M (A : Type) : Type := state -> result A * state.

Definition ret {A} (a : A) : M A := fun st => (Ok a, st).
Definition raise {A} (e : exn) : M A := fun st => (Raise e, st).
Definition bind {A B} (m : M A) (k : A -> M B) : M B :=
  fun st => match m st with
            | (Ok a, st') => k a st'
            | (Raise e, st') => (Raise e, st')
            end.
Definition lift {A} (r : result A) : M A := fun st => (r, st).
Definition get {A} (f : HierarchicalBert -> A) : M A := fun st => (Ok (f (self st)), st).
Definition emit (e : event) : M unit :=
  fun st => (Ok tt, {| self := self st; trace := trace st ++ [e] |}).
(** Reading an attribute that [__init__] may not have set. *)
Definition attr {A} (f : HierarchicalBert -> option A) : M A :=
  fun st => match f (self st) with
            | Some a => (Ok a, st)
            | None => (Raise AttributeError, st)
            end.

Declare Scope monad_scope.
Delimit Scope monad_scope with M.
Notation "x <- c ;; k" := (bind c (fun x => k))
  (at level 61, c at next level, right associativity) : monad_scope.
Notation "c ;;; k" := (bind c (fun _ => k))
  (at level 61, right associativity) : monad_scope.

Definition call_encoder (a b c : tensor Z) : M (tensor F32) :=
  (e <- get encoder ;;
   emit (Call_encoder a b c) ;;;
   lift (encoder_call e a b c))%M.

Definition call_seg_encoder (x : tensor F32) : M (tensor F32) :=
  (f <- attr seg_encoder ;;
   emit (Call_seg_encoder x) ;;;
   lift (f x))%M.

Definition call_down_project (x : tensor F32) : M (tensor F32) :=
  (f <- attr down_project ;;
   emit (Call_down_project x) ;;;
   lift (f x))%M.

Definition call_seg_pos_embeddings (idx : tensor Z) : M (tensor F32) :=
  (e <- attr seg_pos_embeddings ;;
   emit (Call_seg_pos_embeddings idx) ;;;
   lift (embedding e idx))%M.

(** Lines 82-96: squash samples and segments into one axis, encode the
    segments with the base encoder, reshape back and gather the state of
    token 0 of every segment. *)
Definition encode_segments (input_ids attention_mask token_type_ids : tensor Z)
  : M (tensor F32) :=
  (t1 <- lift (size input_ids (-1)) ;;
   input_ids_reshape <- lift (view (contiguous input_ids) [-1; Z.of_nat t1]%Z) ;;
   t2 <- lift (size attention_mask (-1)) ;;
   attention_mask_reshape <- lift (view (contiguous attention_mask) [-1; Z.of_nat t2]%Z) ;;
   t3 <- lift (size token_type_ids (-1)) ;;
   token_type_ids_reshape <- lift (view (contiguous token_type_ids) [-1; Z.of_nat t3]%Z) ;;
   encoder_outputs <- call_encoder input_ids_reshape attention_mask_reshape
                                   token_type_ids_reshape ;;
   n <- lift (size input_ids 0) ;;
   max_segments <- get max_segments ;;
   max_segment_length <- get max_segment_length ;;
   hidden_size <- get hidden_size ;;
   encoder_outputs <- lift (view (contiguous encoder_outputs)
                              [Z.of_nat n; Z.of_nat max_segments;
                               Z.of_nat max_segment_length; Z.of_nat hidden_size]) ;;
   lift (select f32_zero 2 0 encoder_outputs))%M.

(** Lines 99-109: the LSTM on top of the segment encodings. *)
Definition lstm_branch (input_ids : tensor Z) (encoder_outputs : tensor F32)
  : M (tensor F32) :=
  (lstms <- call_seg_encoder encoder_outputs ;;
   n <- lift (size input_ids 0) ;;
   max_segments <- get max_segments ;;
   hidden_size <- get hidden_size ;;
   reshaped_lstms <- lift (view lstms [Z.of_nat n; Z.of_nat max_segments; 2%Z;
                                       Z.of_nat hidden_size]) ;;
   fwd <- lift (x <- select f32_zero 1 (-1) reshaped_lstms ;; select f32_zero 1 0 x)%res ;;
   bwd <- lift (x <- select f32_zero 1 0 reshaped_lstms ;; select f32_zero 1 1 x)%res ;;
   seg_encoder_outputs <- lift (cat_last f32_zero fwd bwd) ;;
   call_down_project seg_encoder_outputs)%M.

(** Lines 114-116: the segment mask and the segment positions. *)
Definition seg_positions_of (max_segments : nat) (input_ids : tensor Z)
  : result (tensor Z) :=
  (s <- sum_dim 2 input_ids ;;
   let seg_mask := ne_zero s in
   mul64 (arange 1 (max_segments + 1)) seg_mask)%res.

(** Lines 112-124: the transformer on top of the segment encodings.  The
    in-place addition writes into the buffer the base encoder returned, of
    which [encoder_outputs] is a view and which is local to the call; the
    rows looked up in the table are a new tensor, so the table is only
    read. *)
Definition transformer_branch (input_ids : tensor Z) (encoder_outputs : tensor F32)
  : M (tensor F32) :=
  (max_segments <- get max_segments ;;
   seg_positions <- lift (seg_positions_of max_segments input_ids) ;;
   emb <- call_seg_pos_embeddings seg_positions ;;
   encoder_outputs <- lift (pointwise_ f32_zero f32_add encoder_outputs emb) ;;
   seg_encoder_outputs <- call_seg_encoder encoder_outputs ;;
   lift (reduce_dim f32_zero f32_max 1 seg_encoder_outputs))%M.

(** [HierarchicalBert.forward]; the local [outputs] is unbound until one
    of the two branches assigns it. *)
Definition forward (input_ids attention_mask token_type_ids : tensor Z)
  : M SimpleOutput :=
  (encoder_outputs <- encode_segments input_ids attention_mask token_type_ids ;;
   ty <- get seg_encoder_type ;;
   outputs <- (if (ty =? "lstm")%string
               then (o <- lstm_branch input_ids encoder_outputs ;; ret (Some o))
               else ret None) ;;
   ty <- get seg_encoder_type ;;
   outputs <- (if (ty =? "transformer")%string
               then (o <- transformer_branch input_ids encoder_outputs ;; ret (Some o))
               else ret outputs) ;;
   match outputs with
   | None => raise UnboundLocalError
   | Some outputs =>
       ret {| last_hidden_state := Some outputs; past_key_values := None;
              hidden_states := Some outputs; attentions := None;
              cross_attentions := None |}
   end)%M.

(* --------------------------------------------------------------- *)
(** *** Notions the properties are stated with *)

(** The state after the base encoder has been called on the flattened
    batch. *)
Definition after_encoder (st : state) (input_ids attention_mask token_type_ids : tensor Z)
           (n t : nat) : state :=
  {| self := self st;
     trace := trace st ++ [Call_encoder (Tensor [n; t] (data input_ids))
                                        (Tensor [n; t] (data attention_mask))
                                        (Tensor [n; t] (data token_type_ids))] |}.

(** The angle the code computes for row [pos] and column [i]. *)
Definition angle (embedding_dim pos i : nat) : F64 :=
  f64_div (f64_of_int (Z.of_nat pos))
    (f64_pow (f64_of_int 10000)
       (f64_div (f64_of_int (2 * Z.of_nat i)) (f64_of_int (Z.of_nat embedding_dim)))).

(** The closed form of the table, as the specification words it: zeros in
    row 0, sines in the even columns and cosines in the odd columns of the
    other rows. *)
Definition closed_form (embedding_dim pos i : nat) : F64 :=
  if pos =? 0 then f64_zero
  else if Nat.even i then f64_sin (angle embedding_dim pos i)
       else f64_cos (angle embedding_dim pos i).

(** Item [c] of the hidden state of direction [dir] (0 forward, 1
    backward) at timestep [t] of document [d], in the output of the
    bidirectional LSTM seen as [(documents, segments, 2, hidden)]. *)
Definition lstm_state (L : tensor F32) (MS H d t dir c : nat) : F32 :=
  item f32_zero L (((d * MS + t) * 2 + dir) * H + c).

(** The specification's "last state": for every document, the forward
    state of the final timestep followed by the backward state of the
    first timestep. *)
Definition last_states (D MS H : nat) (L : tensor F32) : tensor F32 :=
  Tensor [D; H + H]
    (tabulate (D * (H + H)) (fun q =>
       let d := q / (H + H) in
       let c := q mod (H + H) in
       if c <? H then lstm_state L MS H d (MS - 1) 0 c
       else lstm_state L MS H d 0 1 (c - H))).

(** [torch.sum(input_ids, 2)] at flat segment [q]: the int64 sum of the
    token ids of the segment. *)
Definition token_id_sum (input_ids : tensor Z) (T q : nat) : Z :=
  wrap64 (Zsum (map (fun j => item 0%Z input_ids (q * T + j)) (seq 0 T))).

(** The position the code gives to flat segment [q] of a batch with [G]
    segments per document. *)
Definition position (input_ids : tensor Z) (G T q : nat) : Z :=
  wrap64 (Z.of_nat (q mod G + 1) *
          (if (token_id_sum input_ids T q =? 0)%Z then 0 else 1)).

(** The tensors the attention branch computes before it calls the
    segment encoder. *)
Definition seg_positions (input_ids : tensor Z) (D G T : nat) : tensor Z :=
  Tensor [D; G] (tabulate (D * G) (position input_ids G T)).

Definition looked_up (e : Embedding) (input_ids : tensor Z) (D G T H : nat) : tensor F32 :=
  Tensor [D; G; H]
    (tabulate (D * G * H) (fun q =>
       item f32_zero (value (weight e))
            (Z.to_nat (position input_ids G T (q / H)) * H + q mod H))).

Definition with_positions (e : Embedding) (input_ids : tensor Z) (X : tensor F32)
           (D G T H : nat) : tensor F32 :=
  Tensor [D; G; H]
    (tabulate (D * G * H) (fun q =>
       f32_add (item f32_zero X q) (item f32_zero (looked_up e input_ids D G T H) q))).

Definition max_over_segments (Y : tensor F32) (D G H : nat) : tensor F32 :=
  Tensor [D; H]
    (tabulate (D * H) (fun q =>
       fold_left f32_max
         (map (fun j => item f32_zero Y (axis_offset G H q j)) (seq 1 (G - 1)))
         (item f32_zero Y (axis_offset G H q 0)))).

Definition sinusoidal_table (num_embeddings embedding_dim : nat) : tensor F32 :=
  Tensor [num_embeddings; embedding_dim]
    (tabulate (num_embeddings * embedding_dim) (fun q =>
       f32_of_f64 (closed_form embedding_dim (q / embedding_dim) (q mod embedding_dim)))).

Definition supported (enc : Encoder) : Prop :=
  In (Config.model_type (config enc)) supported_models.

(** A computation keeps the object when the object of the final state
    is the object of the initial state, whatever the outcome. *)
Definition keeps_self {A} (m : M A) : Prop :=
  forall st, self (snd (m st)) = self st.

Definition output_of (outputs : tensor F32) : SimpleOutput :=
  {| last_hidden_state := Some outputs; past_key_values := None;
     hidden_states := Some outputs; attentions := None; cross_attentions := None |}.

Definition finish (r : result (tensor F32) * state) : result SimpleOutput * state :=
  match r with
  | (Ok o, st) => (Ok (output_of o), st)
  | (Raise e, st) => (Raise e, st)
  end.

(** The segment summaries lines 92-96 gather from the per-token states
    [E] the base encoder returned. *)
Definition segment_summaries (E : tensor F32) (D MS MSL H : nat) : tensor F32 :=
  Tensor [D; MS; H]
    (tabulate (D * MS * H) (fun q => item f32_zero E (axis_offset MSL H q 0))).

(** An identity stand-in for the base encoder: the hidden state of a
    token, of width 1, is the token id itself, carried into the floats by
    [marker]. *)
Definition identity_encoder (cfg : Config.t) (marker : Z -> F32) : Encoder :=
  {| config := cfg;
     encoder_call := fun input_ids _ _ =>
       Ok (Tensor (shape input_ids ++ [1]) (map marker (data input_ids))) |}.

(** What the theorems below assume of the modules torch provides: each
    returns a tensor of the shape its documentation gives. *)
Definition encoder_returns_states (enc : Encoder) : Prop :=
  forall a b c n t, shape a = [n; t] ->
    exists E, encoder_call enc a b c = Ok E /\
              shape E = [n; t; Config.hidden_size (config enc)].

Definition maps_last_axis3 (f : module) (h_in h_out : nat) : Prop :=
  forall x d s, shape x = [d; s; h_in] ->
    exists y, f x = Ok y /\ shape y = [d; s; h_out].

Definition maps_last_axis2 (f : module) (h_in h_out : nat) : Prop :=
  forall x d, shape x = [d; h_in] ->
    exists y, f x = Ok y /\ shape y = [d; h_out].

(** Calls of the base encoder among the events. *)
Definition is_encoder_call (ev : event) : Prop :=
  match ev with
  | Call_encoder _ _ _ => True
  | _ => False
  end.

(** A computation only adds, to the calls made so far, calls that
    satisfy [P]. *)
Definition emits (P : event -> Prop) {A} (m : M A) : Prop :=
  forall st, exists evs, trace (snd (m st)) = trace st ++ evs /\ Forall P evs.

End Model.

(* ================================================================= *)
(** ** [generate_experiments.py] *)

Module Experiments.

Local Open Scope string_scope.

(** A Python dict with string keys, in insertion order. *)
Definition dict (V : Type) : Type := list (string * V).

(** [d[k]] *)
Fixpoint get_item {V} (d : dict V) (k : string) : result V :=
  match d with
  | [] => Raise KeyError
  | (k', v) :: d' => if k' =? k then Ok v else get_item d' k
  end.

Definition model_names : dict (list string) :=
  [ ("de", ["xlm-roberta-base"; "deepset/gbert-base"]);
    ("fr", ["xlm-roberta-base"; "camembert/camembert-base-ccnet"]);
    ("it", ["xlm-roberta-base"; "Musixmatch/umberto-commoncrawl-cased-v1"]);
    ("all", ["xlm-roberta-base"; "bert-base-multilingual-cased"]) ].

Definition types : list string := ["standard"; "hierarchical"; "long"].
Definition languages : list string := ["de"; "fr"; "it"; "all"].
Definition train_languages : list string := ["de"; "all"].

(** [for x in l: body], the loop body acting on the list being built. *)
Fixpoint for_each {X S} (l : list X) (body : X -> S -> result S) (s : S) : result S :=
  match l with
  | [] => Ok s
  | x :: l' => (s' <- body x s ;; for_each l' body s')%res
  end.

Definition experiment (model_name type lang : string) : dict string :=
  [("model_name", model_name); ("type", type); ("lang", lang); ("status", "")].

(** The three nested loops, for any dict and lists. *)
Definition grid (model_names : dict (list string)) (types languages : list string)
  : result (list (dict string)) :=
  for_each languages (fun lang train_experiments =>
    for_each types (fun type train_experiments =>
      (models <- get_item model_names lang ;;
       for_each models (fun model_name train_experiments =>
         Ok (train_experiments ++ [experiment model_name type lang])%list)
         train_experiments)%res)
      train_experiments) [].

Definition train_experiments : result (list (dict string)) :=
  grid model_names types languages.

(** [pd.DataFrame(records)]: the columns are the keys of the records in
    the order they first appear; a record without a key has no value in
    that column. *)
Record DataFrame : Type := { columns : list string; rows : list (list (option string)) }.

Definition add_keys (cols : list string) (r : dict string) : list string :=
  fold_left (fun cols kv =>
               if existsb (String.eqb (fst kv)) cols then cols else (cols ++ [fst kv])%list)
            r cols.

Definition find_value (r : dict string) (c : string) : option string :=
  match get_item r c with Ok v => Some v | Raise _ => None end.

Definition pd_DataFrame (records : list (dict string)) : DataFrame :=
  let cols := fold_left add_keys records [] in
  {| columns := cols; rows := map (fun r => map (find_value r) cols) records |}.

(** [df.to_csv(path, index=False)]: a header line and a line per row,
    fields separated by commas, a field quoted only when it holds a comma,
    a quote or a line break. *)
Definition quote : ascii := ascii_of_nat 34.
Definition newline : ascii := ascii_of_nat 10.
Definition carriage_return : ascii := ascii_of_nat 13.
Definition comma : ascii := ascii_of_nat 44.

Fixpoint needs_quoting (s : string) : bool :=
  match s with
  | EmptyString => false
  | String c s' =>
      Ascii.eqb c comma || Ascii.eqb c quote || Ascii.eqb c newline
      || Ascii.eqb c carriage_return || needs_quoting s'
  end.

Fixpoint double_quotes (s : string) : string :=
  match s with
  | EmptyString => EmptyString
  | String c s' =>
      if Ascii.eqb c quote then String quote (String quote (double_quotes s'))
      else String c (double_quotes s')
  end.

Definition csv_field (v : option string) : string :=
  match v with
  | None => ""
  | Some s => if needs_quoting s
              then String quote (double_quotes s ++ String quote EmptyString)
              else s
  end.

Definition csv_line (fields : list string) : string :=
  String.concat (String comma EmptyString) fields ++ String newline EmptyString.

Definition to_csv (df : DataFrame) : string :=
  String.concat "" (csv_line (map (fun c => csv_field (Some c)) (columns df))
                    :: map (fun r => csv_line (map csv_field r)) (rows df)).

(** The script: the table written to [train_experiments.csv]. *)
Definition script : result string :=
  (records <- train_experiments ;;
   Ok (to_csv (pd_DataFrame records)))%res.

(** Counting the rows equal to a given row. *)
Definition pair_eqb (p q : string * string) : bool :=
  (fst p =? fst q) && (snd p =? snd q).

Fixpoint row_eqb (r1 r2 : dict string) : bool :=
  match r1, r2 with
  | [], [] => true
  | p :: r1', q :: r2' => pair_eqb p q && row_eqb r1' r2'
  | _, _ => false
  end.

Definition count_rows (records : list (dict string)) (r : dict string) : nat :=
  List.length (filter (row_eqb r) records).

(** The base-model identifiers of the script, each once. *)
Definition base_models : list string :=
  nodup string_dec (concat (map snd model_names)).

(** The grid as a cross-product of all the base models, the types and
    the languages: one row for every combination. *)
Definition full_cross_product (records : list (dict string)) : Prop :=
  forall lang type model_name,
    In lang languages -> In type types -> In model_name base_models ->
    count_rows records (experiment model_name type lang) = 1.

(** The base models a dict lists for a language, none when the language
    has no entry. *)
Definition models_of (model_names : dict (list string)) (lang : string) : list string :=
  match get_item model_names lang with
  | Ok models => models
  | Raise _ => []
  end.

(** The rows in the order the loops visit them: language by language,
    type by type within a language, model by model within a type. *)
Definition rows_in_loop_order (model_names : dict (list string))
           (types languages : list string) : list (dict string) :=
  flat_map (fun lang =>
    flat_map (fun type =>
      map (fun model_name => experiment model_name type lang)
          (models_of model_names lang)) types) languages.

(** A row given by its model, type and language. *)
Definition experiment_of (row : string * string * string) : dict string :=
  experiment (fst (fst row)) (snd (fst row)) (snd row).

(** The line of the table for a row whose fields need no quoting: the
    status is empty, so the line ends with a comma. *)
Definition plain_line (row : string * string * string) : string :=
  fst (fst row) ++ "," ++ snd (fst row) ++ "," ++ snd row ++ "," ++ String newline "".

Definition plain (row : string * string * string) : Prop :=
  needs_quoting (fst (fst row)) = false /\
  needs_quoting (snd (fst row)) = false /\
  needs_quoting (snd row) = false.

End Experiments.

(* ================================================================= *)
(** ** Stand-ins for the floats, torch and the base encoder

    Integer stand-ins on which the definitions above can be run: they
    show that what the theorems assume can be met, and carry the concrete
    inputs at which the code departs from the specification. *)

Module StandIn.

#[local] Instance floats : Floats := {|
  F64 := Z;
  F32 := Z;
  f64_zero := 0%Z;
  f64_of_int := fun z => z;
  f64_div := Z.div;
  f64_pow := Z.pow;
  f64_sin := fun z => (z + 1)%Z;
  f64_cos := fun z => (z + 2)%Z;
  f32_of_f64 := fun z => z;
  f32_add := Z.add;
  f32_max := Z.max
|}.

(** An LSTM stand-in doubles every item, a linear stand-in keeps the
    first items of every row, a transformer stand-in is the identity. *)
#[local] Instance torch : Torch := {|
  nn_LSTM := fun _ h x =>
    match shape x with
    | [d; s; _] => Ok (Tensor [d; s; 2 * h]
                         (tabulate (d * s * (2 * h)) (fun q => item 0%Z x (q / 2))))
    | _ => Raise RuntimeError_other
    end;
  nn_Linear := fun i o x =>
    match shape x with
    | [d; _] => Ok (Tensor [d; o]
                      (tabulate (d * o) (fun q => item 0%Z x (q / o * i + q mod o))))
    | _ => Raise RuntimeError_other
    end;
  nn_Transformer_encoder := fun _ _ _ _ _ _ x => Ok x
|}.

Definition cfg (family : string) (h : nat) : Config.t :=
  {| Config.model_type := family; Config.hidden_size := h;
     Config.num_attention_heads := 1; Config.intermediate_size := h;
     Config.hidden_act := "gelu"; Config.hidden_dropout_prob := 0%Z;
     Config.layer_norm_eps := 0%Z |}.

(** A base encoder whose hidden state for a token is the token id,
    repeated [h] times. *)
Definition base (family : string) (h : nat) : Encoder :=
  {| config := cfg family h;
     encoder_call := fun input_ids _ _ =>
       Ok (Tensor (shape input_ids ++ [h])
             (tabulate (numel (shape input_ids) * h)
                       (fun q => item 0%Z input_ids (q / h)))) |}.

(** Two documents of three segments of four tokens; the third segment of
    the second document is padding. *)
Definition batch : tensor Z :=
  Tensor [2; 3; 4]
    [101; 7; 8; 102;   101; 9; 102; 0;   101; 5; 6; 102;
     101; 3; 102; 0;   101; 4; 4; 102;   0; 0; 0; 0]%Z.

Definition ones : tensor Z := Tensor [2; 3; 4] (repeat 1%Z 24).
Definition zeros : tensor Z := Tensor [2; 3; 4] (repeat 0%Z 24).

(** One document of two segments of six tokens, for an object configured
    for three segments of four tokens. *)
Definition odd_batch : tensor Z :=
  Tensor [1; 2; 6] [101; 1; 2; 3; 4; 102;  101; 5; 6; 7; 8; 102]%Z.

(** Unique markers, one per token, for the identity stand-in. *)
Definition markers : tensor Z :=
  Tensor [2; 3; 2] [11; 12; 21; 22; 31; 32; 41; 42; 51; 52; 61; 62]%Z.

Definition identity_object : HierarchicalBert :=
  {| encoder := identity_encoder (cfg "bert" 1) (fun z => z);
     hidden_size := 1; max_segments := 3; max_segment_length := 2;
     seg_encoder_type := "transformer";
     seg_encoder := None; down_project := None; seg_pos_embeddings := None |}.

(** Two documents of a single segment of twelve tokens; the second is
    all padding. *)
Definition single_segment_batch : tensor Z :=
  Tensor [2; 1; 12]
    [101; 1; 2; 3; 4; 5; 6; 7; 8; 9; 10; 102;  0; 0; 0; 0; 0; 0; 0; 0; 0; 0; 0; 0]%Z.

(** The attention-variant object the constructor builds for three
    segments of four tokens on a base encoder of hidden width 2. *)
Definition attention_object : HierarchicalBert :=
  match init (base "bert" 2) 3 4 "transformer" with
  | Ok obj => obj
  | Raise _ => identity_object
  end.

End StandIn.

(** The learned parameters of the object exclude the position table when
    the parameter that holds it requires no gradient. *)
Definition table_not_learned `{Floats} (obj : HierarchicalBert) : Prop :=
  forall e, seg_pos_embeddings obj = Some e -> requires_grad (weight e) = false.

(** A forward call rejects its batch at a view. *)
Definition rejected_by_view `{Floats} (st : state) (ids mask tys : tensor Z)
  : Prop :=
  fst (forward ids mask tys st) = Raise RuntimeError_shape_invalid.

(* ================================================================= *)
(** * Properties *)

(** ** Facts about the tensor operations *)

Lemma length_tabulate {A} n (f : nat -> A) : length (tabulate n f) = n.
Proof. unfold tabulate. now rewrite length_map, length_seq. Qed.

Lemma nth_tabulate {A} n (f : nat -> A) d q :
  q < n -> nth q (tabulate n f) d = f q.
Proof.
  intros Hq. unfold tabulate.
  rewrite (nth_indep _ d (f 0)) by now rewrite length_map, length_seq.
  rewrite map_nth, seq_nth; auto.
Qed.

Lemma norm_dim_nat n i : i < n -> norm_dim n (Z.of_nat i) = Ok i.
Proof.
  intros Hi. unfold norm_dim.
  replace (0 <=? Z.of_nat i)%Z with true by (symmetry; apply Z.leb_le; lia).
  replace (Z.of_nat i <? Z.of_nat n)%Z with true by (symmetry; apply Z.ltb_lt; lia).
  simpl. now rewrite Nat2Z.id.
Qed.

Lemma norm_dim_last n : 0 < n -> norm_dim n (-1) = Ok (n - 1).
Proof.
  intros Hn. unfold norm_dim. simpl.
  replace (- Z.of_nat n <=? -1)%Z with true by (symmetry; apply Z.leb_le; lia).
  f_equal. lia.
Qed.

Lemma norm_dim_zero_empty i : norm_dim 0 i = Raise IndexError.
Proof.
  unfold norm_dim. simpl.
  destruct (Z.leb_spec 0 i), (Z.ltb_spec i 0); simpl; auto; lia.
Qed.

(** A view with every size given succeeds exactly when the sizes account
    for every item of the buffer. *)
Lemma view_exact {A} (t : tensor A) (dims : list nat) :
  view t (map Z.of_nat dims) =
  if numel dims =? numel (shape t) then Ok (Tensor dims (data t))
  else Raise RuntimeError_shape_invalid.
Proof.
  unfold view, infer_size.
  assert (E1 : existsb (fun d => (d <? -1)%Z) (map Z.of_nat dims) = false).
  { induction dims as [|a dims IH]; cbn [map existsb]; auto. rewrite IH.
    replace (Z.of_nat a <? -1)%Z with false by (symmetry; apply Z.ltb_ge; lia).
    reflexivity. }
  assert (E2 : filter (fun d => (d =? -1)%Z) (map Z.of_nat dims) = []).
  { clear E1. induction dims as [|a dims IH]; cbn [map filter]; auto.
    replace (Z.of_nat a =? -1)%Z with false by (symmetry; apply Z.eqb_neq; lia).
    exact IH. }
  assert (E3 : map Z.to_nat (filter (fun d => negb (d =? -1)%Z) (map Z.of_nat dims)) = dims).
  { clear E1 E2. induction dims as [|a dims IH]; cbn [map filter]; auto.
    replace (Z.of_nat a =? -1)%Z with false by (symmetry; apply Z.eqb_neq; lia).
    cbn [negb map]. now rewrite Nat2Z.id, IH. }
  rewrite E1, E2, E3. simpl.
  destruct (numel dims =? numel (shape t)); reflexivity.
Qed.

(** [x.view(-1, t)] on a tensor whose last axis has size [t]. *)
Lemma view_flatten {A} (t : tensor A) (n m : nat) :
  numel (shape t) = n * m ->
  view t [-1; Z.of_nat m]%Z =
  if m =? 0 then Raise RuntimeError_shape_invalid
  else Ok (Tensor [n; m] (data t)).
Proof.
  intros Hn. unfold view, infer_size.
  assert (E0 : (Z.of_nat m <? -1)%Z = false) by (apply Z.ltb_ge; lia).
  assert (E1 : (Z.of_nat m =? -1)%Z = false) by (apply Z.eqb_neq; lia).
  cbn [existsb filter].
  change (-1 <? -1)%Z with false. change (-1 =? -1)%Z with true.
  rewrite E0, E1. cbn [negb orb length map numel fold_right rbind].
  rewrite E1. change (-1 =? -1)%Z with true.
  rewrite Nat2Z.id, Nat.mul_1_r, Hn.
  destruct (Nat.eqb_spec m 0) as [->|Hm]; simpl; auto.
  rewrite Nat.Div0.mod_mul. simpl.
  rewrite Nat.div_mul by auto. reflexivity.
Qed.

Lemma numel_app sh1 sh2 : numel (sh1 ++ sh2) = numel sh1 * numel sh2.
Proof.
  unfold numel. induction sh1 as [|a sh1 IH]; simpl.
  - lia.
  - rewrite IH. lia.
Qed.

Lemma axis_split pre (n : nat) post :
  nth (length pre) (pre ++ n :: post) 0 = n /\
  skipn (S (length pre)) (pre ++ n :: post) = post /\
  drop_axis (length pre) (pre ++ n :: post) = pre ++ post.
Proof.
  unfold drop_axis. induction pre as [|a pre IH]; cbn [length app nth skipn firstn].
  - auto.
  - destruct IH as (H1 & H2 & H3). repeat split; auto.
    cbn [skipn] in H3. now rewrite H3.
Qed.

(** The offset an axis-removing operation reads, at row [o] above the
    axis and offset [r] below it. *)
Lemma axis_offset_at n inner o r j :
  r < inner -> axis_offset n inner (o * inner + r) j = (o * n + j) * inner + r.
Proof.
  intros Hr. unfold axis_offset.
  rewrite Nat.div_add_l by lia. rewrite Nat.div_small by lia.
  rewrite Nat.add_comm with (n := o * inner), Nat.Div0.mod_add.
  rewrite Nat.mod_small by lia. lia.
Qed.

Lemma flat_lt a b n m : a < n -> b < m -> a * m + b < n * m.
Proof. intros Ha Hb. nia. Qed.

Lemma item_tabulate {A} (d : A) sh n f q :
  q < n -> item d (Tensor sh (tabulate n f)) q = f q.
Proof. intros Hq. unfold item. cbn [data]. now apply nth_tabulate. Qed.

Lemma select_spec {A} (d : A) (t : tensor A) pre n post i i' :
  shape t = pre ++ n :: post ->
  norm_dim n i = Ok i' ->
  select d (Z.of_nat (length pre)) i t =
  Ok (Tensor (pre ++ post)
        (tabulate (numel pre * numel post)
                  (fun q => item d t (axis_offset n (numel post) q i')))).
Proof.
  intros Hsh Hi. unfold select. rewrite Hsh.
  rewrite norm_dim_nat by (rewrite length_app; cbn [length]; lia).
  cbn [rbind]. destruct (axis_split pre n post) as (-> & -> & ->).
  rewrite Hi. cbn [rbind]. now rewrite numel_app.
Qed.

Lemma select_empty_axis {A} (d : A) (t : tensor A) pre post i :
  shape t = pre ++ 0 :: post ->
  select d (Z.of_nat (length pre)) i t = Raise IndexError.
Proof.
  intros Hsh. unfold select. rewrite Hsh.
  rewrite norm_dim_nat by (rewrite length_app; cbn [length]; lia).
  cbn [rbind]. destruct (axis_split pre 0 post) as (-> & _ & _).
  now rewrite norm_dim_zero_empty.
Qed.

Lemma sum_dim_spec (t : tensor Z) pre n post :
  shape t = pre ++ n :: post ->
  sum_dim (Z.of_nat (length pre)) t =
  Ok (Tensor (pre ++ post)
        (tabulate (numel pre * numel post) (fun q =>
           wrap64 (Zsum (map (fun j => item 0%Z t (axis_offset n (numel post) q j))
                             (seq 0 n)))))).
Proof.
  intros Hsh. unfold sum_dim. rewrite Hsh.
  rewrite norm_dim_nat by (rewrite length_app; cbn [length]; lia).
  cbn [rbind]. destruct (axis_split pre n post) as (-> & -> & ->).
  now rewrite numel_app.
Qed.

Lemma reduce_dim_spec {A} (d : A) op (t : tensor A) pre m post :
  shape t = pre ++ S m :: post ->
  reduce_dim d op (Z.of_nat (length pre)) t =
  Ok (Tensor (pre ++ post)
        (tabulate (numel pre * numel post) (fun q =>
           fold_left op
             (map (fun j => item d t (axis_offset (S m) (numel post) q j)) (seq 1 m))
             (item d t (axis_offset (S m) (numel post) q 0))))).
Proof.
  intros Hsh. unfold reduce_dim. rewrite Hsh.
  rewrite norm_dim_nat by (rewrite length_app; cbn [length]; lia).
  cbn [rbind]. destruct (axis_split pre (S m) post) as (-> & -> & ->).
  now rewrite numel_app.
Qed.

(* ================================================================= *)
(** ** Facts about the forward pass *)

Section ForwardFacts.
Context `{FL : Floats} `{TO : !Torch}.

Lemma size_last3 {A} (t : tensor A) a b c :
  shape t = [a; b; c] -> size t (-1) = Ok c /\ size t 0 = Ok a.
Proof. intros H. unfold size. rewrite H. split; reflexivity. Qed.

Lemma numel3 a b c : numel [a; b; c] = a * b * c.
Proof. unfold numel. simpl. lia. Qed.

Lemma numel4 a b c e : numel [a; b; c; e] = a * b * c * e.
Proof. unfold numel. simpl. lia. Qed.

Lemma numel2 a b : numel [a; b] = a * b.
Proof. unfold numel. simpl. lia. Qed.

Lemma numel1 a : numel [a] = a.
Proof. unfold numel. simpl. lia. Qed.

(** Lines 82-96 on a rank-3 batch: the three views succeed, the base
    encoder is called once on the flattened batch, and the view back only
    compares the number of items. *)
Lemma encode_segments_run st ids mask tys D G T E :
  shape ids = [D; G; T] -> shape mask = [D; G; T] -> shape tys = [D; G; T] ->
  0 < T ->
  encoder_call (encoder (self st)) (Tensor [D * G; T] (data ids))
               (Tensor [D * G; T] (data mask)) (Tensor [D * G; T] (data tys)) = Ok E ->
  encode_segments ids mask tys st =
  (let MS := max_segments (self st) in
   let MSL := max_segment_length (self st) in
   let H := hidden_size (self st) in
   if D * MS * MSL * H =? numel (shape E) then
     if MSL =? 0 then Raise IndexError
     else Ok (Tensor [D; MS; H]
                (tabulate (D * MS * H)
                   (fun q => item f32_zero E (axis_offset MSL H q 0))))
   else Raise RuntimeError_shape_invalid,
   after_encoder st ids mask tys (D * G) T).
Proof.
  intros Hi Hm Ht HT HE.
  destruct (size_last3 ids Hi) as [Hs1 Hs0].
  destruct (size_last3 mask Hm) as [Hs2 _].
  destruct (size_last3 tys Ht) as [Hs3 _].
  unfold encode_segments, bind, lift, call_encoder, bind, get, emit, lift, contiguous.
  rewrite Hs1, Hs2, Hs3, Hs0.
  rewrite !(@view_flatten _ _ (D * G) T) by (rewrite ?Hi, ?Hm, ?Ht, numel3; lia).
  destruct (Nat.eqb_spec T 0) as [?|_]; [lia|].
  cbn [self trace]. rewrite HE. unfold after_encoder.
  set (MS := max_segments (self st)). set (MSL := max_segment_length (self st)).
  set (H := hidden_size (self st)). cbv zeta.
  change [Z.of_nat D; Z.of_nat MS; Z.of_nat MSL; Z.of_nat H]
    with (map Z.of_nat [D; MS; MSL; H]).
  rewrite view_exact, numel4.
  destruct (D * MS * MSL * H =? numel (shape E)); [|reflexivity].
  change 2%Z with (Z.of_nat (length [D; MS])).
  destruct MSL as [|l].
  - rewrite (@select_empty_axis _ f32_zero _ [D; MS] [H]) by reflexivity. reflexivity.
  - rewrite (@select_spec _ f32_zero _ [D; MS] (S l) [H] 0%Z 0) by reflexivity.
    cbn [app Nat.eqb]. rewrite numel2, numel1. reflexivity.
Qed.

(* --------------------------------------------------------------- *)
(** *** The positional table *)

Lemma length_mapi {X Y} (f : nat -> X -> Y) l : length (mapi f l) = length l.
Proof.
  unfold mapi. rewrite length_map, length_combine, length_seq. lia.
Qed.

Lemma nth_mapi {X Y} (f : nat -> X -> Y) l i dy dx :
  i < length l -> nth i (mapi f l) dy = f i (nth i l dx).
Proof.
  intros Hi. unfold mapi.
  set (g := fun p : nat * X => f (fst p) (snd p)).
  transitivity (nth i (map g (combine (seq 0 (length l)) l)) (g (0, dx))).
  { apply nth_indep. rewrite length_map, length_combine, length_seq. lia. }
  rewrite (map_nth g), combine_nth by now rewrite length_seq.
  unfold g. cbn [fst snd]. now rewrite seq_nth.
Qed.

(** Item [i] of row [p] of a 2-D array laid out row after row. *)
Lemma nth_concat_rows {X} (rows : list (list X)) m p i d :
  Forall (fun r => length r = m) rows ->
  p < length rows -> i < m ->
  nth (p * m + i) (concat rows) d = nth i (nth p rows []) d.
Proof.
  intros Hall. revert p. induction Hall as [|r rows Hr Hall IH]; intros p Hp Hi.
  - cbn [length] in Hp. lia.
  - cbn [concat]. destruct p as [|p].
    + cbn [nth Nat.mul Nat.add]. rewrite app_nth1 by lia. reflexivity.
    + cbn [nth length] in *. rewrite app_nth2 by lia.
      replace (S p * m + i - length r) with (p * m + i) by lia.
      apply IH; lia.
Qed.

Lemma length_concat_rows {X} (rows : list (list X)) m :
  Forall (fun r => length r = m) rows -> length (concat rows) = length rows * m.
Proof.
  induction 1 as [|r rows Hr Hall IH]; cbn [concat length]; auto.
  rewrite length_app, IH, Hr. lia.
Qed.

Lemma update_slice_rows r0 c0 step f arr m :
  Forall (fun r => length r = m) arr ->
  Forall (fun r => length r = m) (update_slice r0 c0 step f arr).
Proof.
  intros Hall. apply Forall_forall. intros r Hr.
  apply (In_nth _ _ []) in Hr. destruct Hr as (p & Hp & <-).
  unfold update_slice in *. rewrite length_mapi in Hp.
  rewrite (nth_mapi _ _ _ [] Hp).
  assert (Hlen : length (nth p arr []) = m).
  { rewrite Forall_forall in Hall. apply Hall. now apply nth_In. }
  destruct (r0 <=? p); auto. now rewrite length_mapi.
Qed.

Lemma update_slice_nth r0 c0 step f arr p i d :
  p < length arr -> i < length (nth p arr []) ->
  nth i (nth p (update_slice r0 c0 step f arr) []) d =
  if (r0 <=? p) && (c0 <=? i) && ((i - c0) mod step =? 0)
  then f (nth i (nth p arr []) d) else nth i (nth p arr []) d.
Proof.
  intros Hp Hi. unfold update_slice.
  rewrite (nth_mapi _ _ _ [] Hp).
  destruct (r0 <=? p); cbn [andb]; auto.
  now rewrite (nth_mapi _ _ _ d Hi).
Qed.

Lemma even_mod2 i : ((i - 0) mod 2 =? 0) = Nat.even i.
Proof.
  rewrite Nat.sub_0_r. destruct (Nat.even i) eqn:E.
  - apply Nat.even_spec in E. destruct E as [k ->].
    apply Nat.eqb_eq. rewrite Nat.mul_comm. apply Nat.Div0.mod_mul.
  - apply Nat.eqb_neq. intros H.
    apply Nat.Div0.mod_divides in H. destruct H as [k ->].
    rewrite Nat.even_mul in E. discriminate.
Qed.

Lemma odd_mod2 i : ((1 <=? i) && ((i - 1) mod 2 =? 0)) = negb (Nat.even i).
Proof.
  destruct i as [|i]; [reflexivity|].
  cbn [Nat.leb andb]. replace (S i - 1) with (i - 0) by lia.
  rewrite even_mod2, Nat.even_succ, Nat.negb_odd. reflexivity.
Qed.

(** [sinusoidal_init] returns the closed form, cast to single precision,
    whenever there is at least one row. *)
Lemma sinusoidal_init_closed_form num_embeddings embedding_dim :
  1 <= num_embeddings ->
  sinusoidal_init num_embeddings embedding_dim =
  Ok (Tensor [num_embeddings; embedding_dim]
        (tabulate (num_embeddings * embedding_dim) (fun q =>
           f32_of_f64 (closed_form embedding_dim (q / embedding_dim) (q mod embedding_dim))))).
Proof.
  intros Hn. unfold sinusoidal_init.
  set (rows := map _ (seq 0 num_embeddings)).
  assert (Hlen : length rows = num_embeddings) by (unfold rows; now rewrite length_map, length_seq).
  assert (Hrows : Forall (fun r => length r = embedding_dim) rows).
  { apply Forall_forall. intros r Hr. unfold rows in Hr. apply in_map_iff in Hr.
    destruct Hr as (pos & <- & _). destruct (negb (pos =? 0)).
    - now rewrite length_map, length_seq.
    - apply repeat_length. }
  destruct rows as [|r0 rows'] eqn:Erows; [cbn [length] in Hlen; lia|].
  rewrite <- Erows in *. clear Erows r0 rows'.
  f_equal. f_equal.
  set (rows2 := update_slice 1 1 2 f64_cos (update_slice 1 0 2 f64_sin rows)).
  assert (Hrows2 : Forall (fun r => length r = embedding_dim) rows2)
    by (unfold rows2; now do 2 apply update_slice_rows).
  assert (Hlen2 : length rows2 = num_embeddings)
    by (unfold rows2, update_slice; now rewrite !length_mapi).
  apply (nth_ext _ _ (f32_of_f64 f64_zero) (f32_of_f64 f64_zero)).
  { now rewrite length_map, (length_concat_rows Hrows2), length_tabulate, Hlen2. }
  intros q Hq. rewrite length_map, (length_concat_rows Hrows2), Hlen2 in Hq.
  assert (Hd : 0 < embedding_dim) by (destruct embedding_dim; lia).
  rewrite nth_tabulate by exact Hq.
  rewrite map_nth. f_equal.
  set (p := q / embedding_dim). set (i := q mod embedding_dim).
  assert (Hi : i < embedding_dim) by (apply Nat.mod_upper_bound; lia).
  assert (Hp : p < num_embeddings) by (apply Nat.Div0.div_lt_upper_bound; lia).
  replace q with (p * embedding_dim + i)
    by (unfold p, i; rewrite Nat.mul_comm; symmetry; apply Nat.div_mod_eq).
  rewrite (@nth_concat_rows _ rows2 embedding_dim p i f64_zero Hrows2) by lia.
  assert (Hrow : forall arr : list (list F64),
             Forall (fun r => length r = embedding_dim) arr ->
             length arr = num_embeddings ->
             i < length (nth p arr [])).
  { intros arr Ha Hl. rewrite Forall_forall in Ha. rewrite Ha; auto.
    apply nth_In. lia. }
  unfold rows2.
  rewrite update_slice_nth;
    [| unfold update_slice; rewrite length_mapi; lia
     | apply Hrow; [now apply update_slice_rows | unfold update_slice; now rewrite length_mapi]].
  rewrite update_slice_nth by (try apply Hrow; auto; lia).
  rewrite <- andb_assoc, odd_mod2. rewrite <- (andb_assoc (1 <=? p)). cbn [Nat.leb andb].
  rewrite even_mod2.
  assert (Hnth : nth i (nth p rows []) f64_zero =
                 if p =? 0 then f64_zero else angle embedding_dim p i).
  { unfold rows.
    match goal with
    | |- context [nth p (map ?f (seq 0 num_embeddings)) []] =>
        change (map f (seq 0 num_embeddings)) with (tabulate num_embeddings f)
    end.
    rewrite nth_tabulate by lia.
    destruct (p =? 0); cbn [negb].
    - apply nth_repeat.
    - match goal with
      | |- context [map ?f (seq 0 embedding_dim)] =>
          change (map f (seq 0 embedding_dim)) with (tabulate embedding_dim f)
      end.
      rewrite nth_tabulate by lia. reflexivity. }
  unfold closed_form. rewrite Hnth.
  destruct p as [|p']; cbn [Nat.leb Nat.eqb andb].
  - reflexivity.
  - destruct (Nat.even i); cbn [negb andb]; reflexivity.
Qed.

(* --------------------------------------------------------------- *)
(** *** Broadcasting between equal shapes *)

Lemma tabulate_ext {X} n (f g : nat -> X) :
  (forall q, q < n -> f q = g q) -> tabulate n f = tabulate n g.
Proof.
  intros H. unfold tabulate. apply map_ext_in. intros q Hq.
  apply in_seq in Hq. apply H. lia.
Qed.

Lemma broadcast_rev_same l : broadcast_rev l l = Ok l.
Proof.
  induction l as [|a l IH]; cbn [broadcast_rev]; auto.
  unfold broadcast_dim. rewrite Nat.eqb_refl, IH. reflexivity.
Qed.

Lemma broadcast_shapes_same sh : broadcast_shapes sh sh = Ok sh.
Proof.
  unfold broadcast_shapes. rewrite broadcast_rev_same. cbn [rbind].
  now rewrite rev_involutive.
Qed.

Lemma length_unravel sh q : length (unravel sh q) = length sh.
Proof. induction sh; cbn [unravel length]; auto. Qed.

(** Reading an operand that already has the shape of the result: the
    offset is unchanged. *)
Lemma ravel_unravel sh q :
  0 < numel sh ->
  ravel sh (map (fun p => if fst p =? 1 then 0 else snd p) (combine sh (unravel sh q)))
  = q mod numel sh.
Proof.
  revert q. induction sh as [|n rest IH]; intros q Hpos.
  - cbn. reflexivity.
  - change (numel (n :: rest)) with (n * numel rest) in *.
    assert (Hn : 0 < n) by (destruct n; lia).
    assert (Hr : 0 < numel rest) by (destruct (numel rest); lia).
    cbn [unravel combine map ravel fst snd]. rewrite IH by exact Hr.
    rewrite (Nat.mul_comm n), Nat.Div0.mod_mul_r.
    destruct (Nat.eqb_spec n 1) as [->|Hne].
    + rewrite Nat.mod_1_r. lia.
    + lia.
Qed.

Lemma bcast_offset_same sh q :
  q < numel sh -> bcast_offset sh (unravel sh q) = q.
Proof.
  intros Hq. unfold bcast_offset.
  rewrite length_unravel, Nat.sub_diag. cbn [skipn].
  rewrite ravel_unravel by lia. apply Nat.mod_small. exact Hq.
Qed.

Lemma pointwise_same_shape {X} (d : X) op (a b : tensor X) :
  shape a = shape b ->
  pointwise d op a b =
  Ok (Tensor (shape a)
        (tabulate (numel (shape a)) (fun q => op (item d a q) (item d b q)))).
Proof.
  intros Hsh. unfold pointwise. rewrite <- Hsh, broadcast_shapes_same.
  cbn [rbind]. f_equal. f_equal. apply tabulate_ext. intros q Hq.
  cbv zeta. now rewrite bcast_offset_same.
Qed.

Lemma pointwise__same_shape {X} (d : X) op (a b : tensor X) :
  shape a = shape b ->
  pointwise_ d op a b =
  Ok (Tensor (shape a)
        (tabulate (numel (shape a)) (fun q => op (item d a q) (item d b q)))).
Proof.
  intros Hsh. unfold pointwise_. rewrite <- Hsh at 1. rewrite broadcast_shapes_same.
  cbn [rbind]. destruct (list_eq_dec Nat.eq_dec (shape a) (shape a)); [|congruence].
  now apply pointwise_same_shape.
Qed.

(** [arange(1, n + 1) * mask] for a mask of shape [(d, n)]: the positions
    [1..n] in every row, times the mask. *)
Lemma mul64_arange (mask : tensor Z) d n :
  shape mask = [d; n] ->
  mul64 (arange 1 (n + 1)) mask =
  Ok (Tensor [d; n]
        (tabulate (d * n) (fun q =>
           wrap64 (Z.of_nat (q mod n + 1) * item 0%Z mask q)))).
Proof.
  intros Hsh. unfold mul64, pointwise, arange. cbn [shape].
  rewrite Hsh, Nat.add_sub.
  unfold broadcast_shapes. cbn [rev app broadcast_rev].
  unfold broadcast_dim. rewrite Nat.eqb_refl. cbn [rbind rev app].
  rewrite numel2. f_equal. f_equal. apply tabulate_ext. intros q Hq. cbv zeta.
  assert (Hn : 0 < n) by (destruct n; lia).
  rewrite <- Hsh, bcast_offset_same by (rewrite Hsh, numel2; lia). rewrite Hsh.
  f_equal. f_equal.
  unfold bcast_offset, item. cbn [unravel length Nat.sub skipn combine map fst snd ravel data].
  change (numel []) with 1. rewrite Nat.div_1_r, Nat.mul_1_r, Nat.add_0_r.
  assert (Hm : q mod n < n) by (apply Nat.mod_upper_bound; lia).
  destruct (Nat.eqb_spec n 1) as [->|Hne].
  - cbn. reflexivity.
  - rewrite (nth_indep _ 0%Z (Z.of_nat 0)) by (rewrite length_map, length_seq; lia).
    rewrite map_nth, seq_nth by lia. f_equal. lia.
Qed.

(* --------------------------------------------------------------- *)
(** *** The recurrent branch *)

Lemma lstm_branch_run st ids X f g D G T L :
  seg_encoder (self st) = Some f -> down_project (self st) = Some g ->
  shape ids = [D; G; T] ->
  f X = Ok L ->
  numel (shape L) = D * max_segments (self st) * 2 * hidden_size (self st) ->
  0 < max_segments (self st) ->
  lstm_branch ids X st =
  (let ls := last_states D (max_segments (self st)) (hidden_size (self st)) L in
   (g ls, {| self := self st;
             trace := (trace st ++ [Call_seg_encoder X]) ++ [Call_down_project ls] |})).
Proof.
  intros Hf Hg Hi HL Hnum HMS.
  destruct (size_last3 ids Hi) as [_ Hs0].
  unfold lstm_branch, call_seg_encoder, call_down_project, bind, attr, emit, lift, get.
  rewrite Hf. cbn [self trace]. rewrite HL, Hs0, Hg.
  set (MS := max_segments (self st)) in *. set (H := hidden_size (self st)) in *.
  change [Z.of_nat D; Z.of_nat MS; 2%Z; Z.of_nat H] with (map Z.of_nat [D; MS; 2; H]).
  rewrite view_exact, numel4, Hnum, Nat.eqb_refl.
  change 1%Z with (Z.of_nat (length [D])).
  rewrite (@select_spec _ f32_zero _ [D] MS [2; H] (-1)%Z (MS - 1))
    by (try reflexivity; now apply norm_dim_last).
  rewrite (@select_spec _ f32_zero _ [D] MS [2; H] 0%Z 0)
    by (try reflexivity; now apply (@norm_dim_nat MS 0)).
  cbn [rbind app].
  rewrite (@select_spec _ f32_zero _ [D] 2 [H] 0%Z 0) by reflexivity.
  rewrite (@select_spec _ f32_zero _ [D] 2 [H] 1%Z 1) by reflexivity.
  unfold cat_last. cbn [shape rev app].
  destruct (list_eq_dec Nat.eq_dec [D] [D]) as [_|]; [|congruence].
  rewrite !numel1, !numel2.
  match goal with
  | |- (g ?t, _) = _ => assert (Hls : t = last_states D MS H L)
  end.
  { unfold last_states. f_equal. apply tabulate_ext. intros q Hq. cbv zeta.
    assert (HH : 0 < H + H) by (destruct H; lia).
    set (d := q / (H + H)). set (c := q mod (H + H)).
    assert (Hc : c < H + H) by (apply Nat.mod_upper_bound; lia).
    assert (Hd : d < D) by (apply Nat.Div0.div_lt_upper_bound; lia).
    unfold lstm_state.
    destruct (Nat.ltb_spec c H) as [Hlt|Hge].
    - rewrite item_tabulate by nia.
      rewrite axis_offset_at by lia.
      replace ((d * 2 + 0) * H + c) with (d * (2 * H) + c) by lia.
      rewrite item_tabulate by nia.
      rewrite axis_offset_at by lia.
      unfold item. cbn [data]. f_equal. lia.
    - rewrite item_tabulate by nia.
      rewrite axis_offset_at by lia.
      replace ((d * 2 + 1) * H + (c - H)) with (d * (2 * H) + c) by lia.
      rewrite item_tabulate by nia.
      rewrite axis_offset_at by lia.
      unfold item. cbn [data]. f_equal. lia. }
  rewrite Hls. reflexivity.
Qed.

(* --------------------------------------------------------------- *)
(** *** The attention branch *)

Lemma wrap64_small z : int64 z -> wrap64 z = z.
Proof.
  unfold int64, wrap64. intros Hz. rewrite Z.mod_small by lia. lia.
Qed.


Lemma seg_positions_of_spec ids D G T :
  shape ids = [D; G; T] ->
  seg_positions_of G ids = Ok (Tensor [D; G] (tabulate (D * G) (position ids G T))).
Proof.
  intros Hi. unfold seg_positions_of.
  change 2%Z with (Z.of_nat (length [D; G])).
  rewrite (@sum_dim_spec ids [D; G] T []) by exact Hi.
  cbn [rbind app]. change (numel []) with 1. rewrite numel2, Nat.mul_1_r.
  unfold ne_zero. cbn [shape data].
  rewrite (@mul64_arange _ D G) by reflexivity.
  f_equal. f_equal. apply tabulate_ext. intros q Hq.
  unfold position, token_id_sum, item at 1. cbn [data].
  unfold tabulate at 1. rewrite map_map.
  fold (tabulate (D * G) (fun x =>
          if (wrap64 (Zsum (map (fun j => item 0%Z ids (axis_offset T 1 x j)) (seq 0 T))) =? 0)%Z
          then 0%Z else 1%Z)).
  rewrite nth_tabulate by exact Hq.
  replace (map (fun j => item 0%Z ids (axis_offset T 1 q j)) (seq 0 T))
    with (map (fun j => item 0%Z ids (q * T + j)) (seq 0 T)); [reflexivity|].
  apply map_ext. intros j.
  unfold axis_offset. rewrite Nat.div_1_r, Nat.mod_1_r. f_equal. lia.
Qed.

Lemma Zsum_zeros l : Forall (fun z => z = 0%Z) l -> Zsum l = 0%Z.
Proof.
  unfold Zsum. induction 1 as [|z l Hz Hl IH]; cbn [fold_left]; auto.
  subst z. exact IH.
Qed.

Lemma position_range ids G T q :
  (Z.of_nat G < 2 ^ 63)%Z -> 0 < G ->
  (0 <= position ids G T q < Z.of_nat (G + 1))%Z.
Proof.
  intros HG Hpos. unfold position.
  assert (Hm : q mod G < G) by (apply Nat.mod_upper_bound; lia).
  destruct (token_id_sum ids T q =? 0)%Z.
  - rewrite Z.mul_0_r. change (wrap64 0) with 0%Z. lia.
  - rewrite Z.mul_1_r, wrap64_small by (unfold int64; lia). lia.
Qed.

Lemma embedding_spec e idx num dim :
  shape (value (weight e)) = [num; dim] ->
  Forall (fun z => (0 <= z < Z.of_nat num)%Z) (data idx) ->
  embedding e idx =
  Ok (Tensor (shape idx ++ [dim])
        (tabulate (numel (shape idx) * dim) (fun q =>
           item f32_zero (value (weight e))
                (Z.to_nat (item 0%Z idx (q / dim)) * dim + q mod dim)))).
Proof.
  intros Hw Hall. unfold embedding. rewrite Hw. cbn [nth].
  replace (forallb _ (data idx)) with true.
  - rewrite numel_app, numel1. reflexivity.
  - symmetry. apply forallb_forall. intros z Hz.
    rewrite Forall_forall in Hall. specialize (Hall z Hz).
    apply andb_true_intro. split; [apply Z.leb_le | apply Z.ltb_lt]; lia.
Qed.

Lemma transformer_branch_run st ids X e f D G T Y :
  seg_pos_embeddings (self st) = Some e -> seg_encoder (self st) = Some f ->
  max_segments (self st) = G ->
  shape ids = [D; G; T] ->
  shape (value (weight e)) = [G + 1; hidden_size (self st)] ->
  shape X = [D; G; hidden_size (self st)] ->
  (Z.of_nat G < 2 ^ 63)%Z -> 0 < G ->
  f (with_positions e ids X D G T (hidden_size (self st))) = Ok Y ->
  shape Y = [D; G; hidden_size (self st)] ->
  transformer_branch ids X st =
  (Ok (max_over_segments Y D G (hidden_size (self st))),
   {| self := self st;
      trace := (trace st ++ [Call_seg_pos_embeddings (seg_positions ids D G T)])
               ++ [Call_seg_encoder (with_positions e ids X D G T (hidden_size (self st)))] |}).
Proof.
  intros He Hf HMS Hi Hw HX HG Hpos HY HshY.
  set (H := hidden_size (self st)) in *.
  unfold transformer_branch, call_seg_pos_embeddings, call_seg_encoder,
    bind, attr, emit, lift, get.
  rewrite HMS, (seg_positions_of_spec ids Hi), He. cbn [self trace].
  fold (seg_positions ids D G T).
  rewrite (@embedding_spec e _ (G + 1) H Hw).
  2:{ unfold seg_positions. cbn [data]. apply Forall_forall. intros z Hz.
      unfold tabulate in Hz. apply in_map_iff in Hz. destruct Hz as (q & <- & _).
      now apply position_range. }
  assert (Hemb : {| shape := shape (seg_positions ids D G T) ++ [H];
                    data := tabulate (numel (shape (seg_positions ids D G T)) * H)
                      (fun q => item f32_zero (value (weight e))
                         (Z.to_nat (item 0%Z (seg_positions ids D G T) (q / H)) * H + q mod H)) |}
                 = looked_up e ids D G T H).
  { unfold looked_up, seg_positions at 1 2. cbn [shape app]. rewrite numel2.
    f_equal. apply tabulate_ext. intros q Hq.
    unfold seg_positions. rewrite item_tabulate; auto.
    apply Nat.Div0.div_lt_upper_bound. lia. }
  rewrite Hemb.
  rewrite pointwise__same_shape by (rewrite HX; reflexivity).
  rewrite HX, numel3. fold (with_positions e ids X D G T H).
  rewrite Hf. cbn [self trace]. rewrite HY.
  change 1%Z with (Z.of_nat (length [D])).
  destruct G as [|m]; [lia|].
  rewrite (@reduce_dim_spec _ f32_zero f32_max Y [D] m [H]) by exact HshY.
  cbn [app]. rewrite !numel1. unfold max_over_segments.
  replace (S m - 1) with m by lia. reflexivity.
Qed.

(* --------------------------------------------------------------- *)
(** *** The constructor *)

Lemma supported_check enc :
  existsb (String.eqb (Config.model_type (config enc))) supported_models = true
  <-> supported enc.
Proof.
  unfold supported. rewrite existsb_exists. split.
  - intros (x & Hin & Heq). apply String.eqb_eq in Heq. now subst.
  - intros Hin. eexists. split; [exact Hin | apply String.eqb_refl].
Qed.

Lemma init_unsupported enc ms msl ty :
  ~ supported enc -> init enc ms msl ty = Raise AssertionError.
Proof.
  intros Hn. unfold init.
  destruct (existsb _ supported_models) eqn:E; [|reflexivity].
  apply supported_check in E. contradiction.
Qed.

Lemma init_lstm enc ms msl :
  supported enc ->
  init enc ms msl "lstm" =
  Ok {| encoder := enc; hidden_size := Config.hidden_size (config enc);
        max_segments := ms; max_segment_length := msl; seg_encoder_type := "lstm";
        seg_encoder := Some (nn_LSTM (Config.hidden_size (config enc))
                                     (Config.hidden_size (config enc)));
        down_project := Some (nn_Linear (2 * Config.hidden_size (config enc))
                                        (Config.hidden_size (config enc)));
        seg_pos_embeddings := None |}.
Proof.
  intros Hs. apply supported_check in Hs. unfold init. rewrite Hs. reflexivity.
Qed.

Lemma init_transformer enc ms msl :
  supported enc ->
  init enc ms msl "transformer" =
  Ok {| encoder := enc; hidden_size := Config.hidden_size (config enc);
        max_segments := ms; max_segment_length := msl;
        seg_encoder_type := "transformer";
        seg_encoder :=
          Some (nn_Transformer_encoder (Config.hidden_size (config enc))
                  (Config.num_attention_heads (config enc))
                  (Config.intermediate_size (config enc))
                  (Config.hidden_act (config enc))
                  (Config.hidden_dropout_prob (config enc))
                  (Config.layer_norm_eps (config enc)));
        down_project := None;
        seg_pos_embeddings :=
          Some (nn_Embedding (ms + 1) (Config.hidden_size (config enc)) (Some 0)
                  (sinusoidal_table (ms + 1) (Config.hidden_size (config enc)))) |}.
Proof.
  intros Hs. apply supported_check in Hs. unfold init. rewrite Hs.
  cbn [negb String.eqb Ascii.eqb Bool.eqb].
  rewrite sinusoidal_init_closed_form by lia. reflexivity.
Qed.

Lemma init_other enc ms msl ty :
  supported enc -> ty <> "lstm"%string -> ty <> "transformer"%string ->
  init enc ms msl ty =
  Ok {| encoder := enc; hidden_size := Config.hidden_size (config enc);
        max_segments := ms; max_segment_length := msl; seg_encoder_type := ty;
        seg_encoder := None; down_project := None; seg_pos_embeddings := None |}.
Proof.
  intros Hs Hl Ht. apply supported_check in Hs. unfold init. rewrite Hs.
  apply String.eqb_neq in Hl, Ht. rewrite Hl, Ht. reflexivity.
Qed.

(* --------------------------------------------------------------- *)
(** *** What a computation leaves alone *)

Lemma keeps_ret {A} (a : A) : keeps_self (ret a).
Proof. intros st. reflexivity. Qed.

Lemma keeps_raise {A} e : keeps_self (raise (A := A) e).
Proof. intros st. reflexivity. Qed.

Lemma keeps_lift {A} (r : result A) : keeps_self (lift r).
Proof. intros st. reflexivity. Qed.

Lemma keeps_get {A} (f : HierarchicalBert -> A) : keeps_self (get f).
Proof. intros st. reflexivity. Qed.

Lemma keeps_emit e : keeps_self (emit e).
Proof. intros st. reflexivity. Qed.

Lemma keeps_attr {A} (f : HierarchicalBert -> option A) : keeps_self (attr f).
Proof. intros st. unfold attr. destruct (f (self st)); reflexivity. Qed.

Lemma keeps_bind {A B} (m : M A) (k : A -> M B) :
  keeps_self m -> (forall a, keeps_self (k a)) -> keeps_self (bind m k).
Proof.
  intros Hm Hk st. unfold bind. specialize (Hm st).
  destruct (m st) as [[a|e] st']; cbn [snd] in *.
  - rewrite Hk. exact Hm.
  - exact Hm.
Qed.

Ltac keeps :=
  repeat first
    [ apply keeps_ret | apply keeps_raise | apply keeps_lift | apply keeps_get
    | apply keeps_emit | apply keeps_attr
    | apply keeps_bind; [| intros ? ]
    | match goal with |- keeps_self (if ?b then _ else _) => destruct b end
    | match goal with |- keeps_self (match ?o with Some _ => _ | None => _ end) => destruct o end ].

Lemma keeps_forward ids mask tys : keeps_self (forward ids mask tys).
Proof.
  unfold forward, encode_segments, lstm_branch, transformer_branch,
    call_encoder, call_seg_encoder, call_down_project, call_seg_pos_embeddings.
  keeps.
Qed.

(* --------------------------------------------------------------- *)
(** *** The dispatch of [forward] *)

Lemma keeps_lstm_branch ids X : keeps_self (lstm_branch ids X).
Proof.
  unfold lstm_branch, call_seg_encoder, call_down_project. keeps.
Qed.

Lemma keeps_transformer_branch ids X : keeps_self (transformer_branch ids X).
Proof.
  unfold transformer_branch, call_seg_encoder, call_seg_pos_embeddings. keeps.
Qed.

Lemma keeps_encode_segments ids mask tys : keeps_self (encode_segments ids mask tys).
Proof. unfold encode_segments, call_encoder. keeps. Qed.

Lemma forward_raise ids mask tys st e st1 :
  encode_segments ids mask tys st = (Raise e, st1) ->
  forward ids mask tys st = (Raise e, st1).
Proof. intros Hrun. unfold forward, bind at 1. now rewrite Hrun. Qed.

Lemma forward_lstm ids mask tys st X st1 :
  encode_segments ids mask tys st = (Ok X, st1) ->
  seg_encoder_type (self st) = "lstm"%string ->
  forward ids mask tys st = finish (lstm_branch ids X st1).
Proof.
  intros Hrun Hty.
  assert (H1 : self st1 = self st)
    by (pose proof (keeps_encode_segments ids mask tys st) as K; now rewrite Hrun in K).
  pose proof (keeps_lstm_branch ids X st1) as H2.
  unfold forward, bind, get, ret, raise. rewrite Hrun, H1, Hty.
  cbn [String.eqb Ascii.eqb Bool.eqb].
  destruct (lstm_branch ids X st1) as [[o|e] st2]; cbn [snd] in H2; [|reflexivity].
  rewrite H2, H1, Hty. reflexivity.
Qed.

Lemma forward_transformer ids mask tys st X st1 :
  encode_segments ids mask tys st = (Ok X, st1) ->
  seg_encoder_type (self st) = "transformer"%string ->
  forward ids mask tys st = finish (transformer_branch ids X st1).
Proof.
  intros Hrun Hty.
  assert (H1 : self st1 = self st)
    by (pose proof (keeps_encode_segments ids mask tys st) as K; now rewrite Hrun in K).
  unfold forward, bind, get, ret, raise. rewrite Hrun, H1, Hty.
  cbn [String.eqb Ascii.eqb Bool.eqb]. rewrite H1, Hty.
  cbn [String.eqb Ascii.eqb Bool.eqb].
  destruct (transformer_branch ids X st1) as [[o|e] st2]; reflexivity.
Qed.

Lemma forward_other ids mask tys st X st1 :
  encode_segments ids mask tys st = (Ok X, st1) ->
  seg_encoder_type (self st) <> "lstm"%string ->
  seg_encoder_type (self st) <> "transformer"%string ->
  forward ids mask tys st = (Raise UnboundLocalError, st1).
Proof.
  intros Hrun Hl Ht.
  assert (H1 : self st1 = self st)
    by (pose proof (keeps_encode_segments ids mask tys st) as K; now rewrite Hrun in K).
  apply String.eqb_neq in Hl, Ht.
  unfold forward, bind, get, ret, raise. rewrite Hrun, H1, Hl, H1, Ht.
  reflexivity.
Qed.

(** Without one of the two variants no call returns, whatever the
    batch. *)
Lemma forward_unknown_variant ids mask tys st :
  seg_encoder_type (self st) <> "lstm"%string ->
  seg_encoder_type (self st) <> "transformer"%string ->
  exists e st', forward ids mask tys st = (Raise e, st').
Proof.
  intros Hl Ht.
  destruct (encode_segments ids mask tys st) as [[X|e] st1] eqn:Hrun.
  - exists UnboundLocalError, st1. now apply forward_other with (X := X).
  - exists e, st1. now apply forward_raise.
Qed.

(* ================================================================= *)
(** ** The claims *)

(** C3.  For every [row_count >= 1] and even [dim], the table builder
    returns a table of shape [(row_count, dim)] with one item per slot,
    whose row 0 is the zero vector and whose row [p >= 1] holds, at an
    even column [i], [sin (p / 10000^(2i/dim))] and, at an odd column [i],
    [cos (p / 10000^(2i/dim))], each computed in double precision and then
    cast to single precision.  The builder is a function of
    [(row_count, dim)] alone. *)
Theorem sinusoidal_init_table (row_count dim : nat) :
  1 <= row_count -> Nat.even dim = true ->
  exists table,
    sinusoidal_init row_count dim = Ok table /\
    shape table = [row_count; dim] /\ wf table /\
    (forall i, i < dim -> item f32_zero table (0 * dim + i) = f32_zero) /\
    (forall p i, 1 <= p < row_count -> i < dim ->
       item f32_zero table (p * dim + i) =
       f32_of_f64 (if Nat.even i then f64_sin (angle dim p i)
                   else f64_cos (angle dim p i))).
Proof.
  intros Hrows _. eexists. split; [now apply sinusoidal_init_closed_form|].
  split; [reflexivity|]. split.
  { unfold wf. cbn [data shape]. now rewrite length_tabulate, numel2. }
  assert (Hitem : forall p i, p < row_count -> i < dim ->
            item f32_zero (sinusoidal_table row_count dim) (p * dim + i) =
            f32_of_f64 (closed_form dim p i)).
  { intros p i Hp Hi. unfold sinusoidal_table. rewrite item_tabulate by nia.
    rewrite Nat.div_add_l, Nat.div_small, Nat.add_0_r by lia.
    rewrite Nat.add_comm, Nat.Div0.mod_add, Nat.mod_small by lia. reflexivity. }
  split.
  - intros i Hi. apply Hitem; lia.
  - intros p i Hp Hi. fold (sinusoidal_table row_count dim). rewrite Hitem by lia.
    unfold closed_form. destruct p; [lia|]. reflexivity.
Qed.

(** C5.  A base encoder whose model family is outside bert, camembert,
    xlm-roberta and roberta makes the constructor raise at once, whatever
    the other arguments; a base encoder of a supported family makes it
    return an object. *)
Theorem init_fails_fast (enc : Encoder) (max_segments max_segment_length : nat)
        (seg_encoder_type : string) :
  (~ In (Config.model_type (config enc))
        ["bert"; "camembert"; "xlm-roberta"; "roberta"]%string ->
   init enc max_segments max_segment_length seg_encoder_type = Raise AssertionError) /\
  (In (Config.model_type (config enc))
      ["bert"; "camembert"; "xlm-roberta"; "roberta"]%string ->
   exists obj, init enc max_segments max_segment_length seg_encoder_type = Ok obj).
Proof.
  split.
  - apply init_unsupported.
  - intros Hs. fold supported_models in Hs. fold (supported enc) in Hs.
    destruct (String.eqb_spec seg_encoder_type "lstm") as [->|Hl].
    { eexists. now apply init_lstm. }
    destruct (String.eqb_spec seg_encoder_type "transformer") as [->|Ht].
    { eexists. now apply init_transformer. }
    eexists. now apply init_other.
Qed.

(** C9.  With a variant selector other than "lstm" and "transformer" the
    constructor returns an object with no segment encoder, no
    down-projection and no position table; a forward call on it, on a
    batch of the configured shape, calls the base encoder on the flattened
    batch, calls nothing else, and then fails because [outputs] was never
    assigned. *)
Theorem unknown_variant_unbound_local (enc : Encoder) (MS MSL : nat) (ty : string) :
  supported enc -> ty <> "lstm"%string -> ty <> "transformer"%string ->
  exists obj,
    init enc MS MSL ty = Ok obj /\
    seg_encoder obj = None /\ down_project obj = None /\
    seg_pos_embeddings obj = None /\
    forall ids mask tys D E tr,
      shape ids = [D; MS; MSL] -> shape mask = [D; MS; MSL] ->
      shape tys = [D; MS; MSL] -> 0 < MSL ->
      encoder_call enc (Tensor [D * MS; MSL] (data ids))
                   (Tensor [D * MS; MSL] (data mask))
                   (Tensor [D * MS; MSL] (data tys)) = Ok E ->
      shape E = [D * MS; MSL; hidden_size obj] ->
      forward ids mask tys {| self := obj; trace := tr |} =
      (Raise UnboundLocalError,
       {| self := obj;
          trace := tr ++ [Call_encoder (Tensor [D * MS; MSL] (data ids))
                                       (Tensor [D * MS; MSL] (data mask))
                                       (Tensor [D * MS; MSL] (data tys))] |}).
Proof.
  intros Hs Hl Ht. eexists. split; [now apply init_other|].
  repeat split.
  intros ids mask tys D E tr Hi Hm Hty HMSL HE HshE.
  cbn [hidden_size] in HshE.
  eapply forward_other; cbn [self seg_encoder_type]; auto.
  rewrite (@encode_segments_run _ ids mask tys D MS MSL E) by (cbn [self encoder]; auto).
  cbn [self max_segments max_segment_length hidden_size].
  rewrite HshE, numel3, Nat.eqb_refl.
  destruct (Nat.eqb_spec MSL 0) as [?|_]; [lia|]. reflexivity.
Qed.

(** C8, as the code has it.  The constructor of the attention variant
    builds the position table once, from [sinusoidal_init], and hands it to
    [nn.Embedding] as the initial value of a parameter that requires a
    gradient; the constructor of the other variants builds no table.  No
    forward call, on any input and whatever its outcome, changes the
    object, and so no entry of the table. *)
Theorem position_table_kept_by_forward (enc : Encoder) (MS MSL : nat) (ty : string)
        (obj : HierarchicalBert) :
  init enc MS MSL ty = Ok obj ->
  (ty = "transformer"%string ->
   exists e, seg_pos_embeddings obj = Some e /\
             sinusoidal_init (MS + 1) (Config.hidden_size (config enc))
             = Ok (value (weight e)) /\
             requires_grad (weight e) = true) /\
  (ty <> "transformer"%string -> seg_pos_embeddings obj = None) /\
  (forall ids mask tys st,
     self (snd (forward ids mask tys st)) = self st).
Proof.
  intros Hinit.
  assert (Hs : supported enc).
  { destruct (existsb (String.eqb (Config.model_type (config enc))) supported_models) eqn:E.
    - now apply supported_check.
    - unfold init in Hinit. rewrite E in Hinit. discriminate. }
  split; [|split].
  - intros ->. rewrite init_transformer in Hinit by exact Hs.
    injection Hinit as <-. cbn [seg_pos_embeddings]. eexists. split; [reflexivity|].
    cbn [nn_Embedding weight value requires_grad]. split; [|reflexivity].
    apply sinusoidal_init_closed_form. lia.
  - intros Ht. destruct (String.eqb_spec ty "lstm") as [->|Hl].
    + rewrite init_lstm in Hinit by exact Hs. now injection Hinit as <-.
    + rewrite init_other in Hinit by auto. now injection Hinit as <-.
  - intros ids mask tys st. apply keeps_forward.
Qed.

Lemma segment_summaries_item E D MS MSL H d s h :
  d < D -> s < MS -> h < H ->
  item f32_zero (segment_summaries E D MS MSL H) ((d * MS + s) * H + h) =
  item f32_zero E (((d * MS + s) * MSL + 0) * H + h).
Proof.
  intros Hd Hs Hh. unfold segment_summaries.
  rewrite item_tabulate by auto using flat_lt. now rewrite axis_offset_at.
Qed.

(** C1.  With the base encoder replaced by an identity stand-in, lines
    82-96 turn a batch of shape [(documents, segments, tokens)] into a
    tensor of shape [(documents, segments, 1)] whose slot [(d, s)] holds
    the marker of token 0 of segment [s] of document [d]: flattening puts
    that segment at flat row [d * segments + s], and the reshape and the
    gathering of token 0 bring it back to its own slot. *)
Theorem flatten_reshape_keeps_order (cfg : Config.t) (marker : Z -> F32) (st : state)
        (ids mask tys : tensor Z) (D G T : nat) :
  encoder (self st) = identity_encoder cfg marker ->
  hidden_size (self st) = 1 ->
  max_segments (self st) = G -> max_segment_length (self st) = T ->
  shape ids = [D; G; T] -> shape mask = [D; G; T] -> shape tys = [D; G; T] ->
  wf ids -> 0 < T ->
  exists summaries,
    fst (encode_segments ids mask tys st) = Ok summaries /\
    shape summaries = [D; G; 1] /\
    forall d s, d < D -> s < G ->
      item f32_zero summaries ((d * G + s) * 1 + 0) =
      marker (item 0%Z ids ((d * G + s) * T + 0)).
Proof.
  intros Henc HH HMS HMSL Hi Hm Ht Hwf HT.
  rewrite (@encode_segments_run st ids mask tys D G T
             (Tensor [D * G; T; 1] (map marker (data ids))))
    by (auto; rewrite Henc; reflexivity).
  rewrite HH, HMS, HMSL. cbn [fst shape]. rewrite numel3, !Nat.mul_1_r, Nat.eqb_refl.
  destruct (Nat.eqb_spec T 0) as [?|_]; [lia|].
  eexists. split; [reflexivity|]. split; [reflexivity|].
  intros d s Hd Hs.
  assert (Hq : d * G + s < D * G) by auto using flat_lt.
  rewrite item_tabulate by lia.
  rewrite axis_offset_at by lia. unfold item. cbn [data].
  unfold wf in Hwf. rewrite Hi, numel3 in Hwf.
  rewrite (nth_indep _ f32_zero (marker 0%Z))
    by (rewrite length_map, Hwf, Nat.mul_1_r;
        pose proof (@flat_lt (d * G + s) 0 (D * G) T Hq HT); lia).
  rewrite map_nth. do 2 f_equal. lia.
Qed.

(** C6.  In the recurrent variant the document representation is the
    down-projection, from [2 * hidden] to [hidden], of the last states of
    the bidirectional LSTM run over the segment summaries with the
    segments as time axis: for each document the forward state of the
    final timestep followed by the backward state of the first timestep. *)
Theorem lstm_document_representation (enc : Encoder) (MS MSL : nat)
        (obj : HierarchicalBert) (ids mask tys : tensor Z) (D : nat)
        (E L out : tensor F32) (tr : list event) :
  let H := Config.hidden_size (config enc) in
  init enc MS MSL "lstm" = Ok obj ->
  0 < MS -> 0 < MSL ->
  shape ids = [D; MS; MSL] -> shape mask = [D; MS; MSL] -> shape tys = [D; MS; MSL] ->
  encoder_call enc (Tensor [D * MS; MSL] (data ids)) (Tensor [D * MS; MSL] (data mask))
               (Tensor [D * MS; MSL] (data tys)) = Ok E ->
  shape E = [D * MS; MSL; H] ->
  nn_LSTM H H (segment_summaries E D MS MSL H) = Ok L ->
  shape L = [D; MS; 2 * H] ->
  nn_Linear (2 * H) H (last_states D MS H L) = Ok out ->
  fst (forward ids mask tys {| self := obj; trace := tr |}) =
  Ok {| last_hidden_state := Some out; past_key_values := None;
        hidden_states := Some out; attentions := None; cross_attentions := None |}.
Proof.
  intros H Hinit HMS HMSL Hi Hm Hty HE HshE HL HshL Hout.
  assert (Hs : supported enc).
  { destruct (existsb (String.eqb (Config.model_type (config enc))) supported_models) eqn:Ex.
    - now apply supported_check.
    - unfold init in Hinit. rewrite Ex in Hinit. discriminate. }
  rewrite init_lstm in Hinit by exact Hs. injection Hinit as <-.
  erewrite forward_lstm; [| | reflexivity].
  2:{ rewrite (@encode_segments_run _ ids mask tys D MS MSL E) by (cbn [self encoder]; auto).
      cbn [self max_segments max_segment_length hidden_size]. fold H.
      rewrite HshE, numel3, Nat.eqb_refl.
      destruct (Nat.eqb_spec MSL 0) as [?|_]; [lia|].
      fold (segment_summaries E D MS MSL H). reflexivity. }
  erewrite (@lstm_branch_run _ ids _ _ _ D MS MSL L);
    [| reflexivity | reflexivity | exact Hi | exact HL
     | unfold after_encoder; cbn [self max_segments hidden_size];
       rewrite HshL, numel3; fold H; lia
     | exact HMS ].
  unfold after_encoder. cbn [self max_segments hidden_size]. fold H. cbv zeta.
  change (H + (H + 0)) with (2 * H). rewrite Hout. reflexivity.
Qed.

Lemma init_ok_supported enc ms msl ty obj :
  init enc ms msl ty = Ok obj -> supported enc.
Proof.
  intros Hinit.
  destruct (existsb (String.eqb (Config.model_type (config enc))) supported_models) eqn:E.
  - now apply supported_check.
  - unfold init in Hinit. rewrite E in Hinit. discriminate.
Qed.

Lemma position_padding ids G T q :
  (forall t, t < T -> item 0%Z ids (q * T + t) = 0%Z) -> position ids G T q = 0%Z.
Proof.
  intros Hz. unfold position, token_id_sum. rewrite Zsum_zeros.
  - change (wrap64 0 =? 0)%Z with true. cbv iota. now rewrite Z.mul_0_r.
  - apply Forall_forall. intros z Hin. apply in_map_iff in Hin.
    destruct Hin as (t & <- & Ht). apply in_seq in Ht. apply Hz. lia.
Qed.

Lemma position_real ids G T d s :
  (Z.of_nat G < 2 ^ 63)%Z -> s < G ->
  token_id_sum ids T (d * G + s) <> 0%Z ->
  position ids G T (d * G + s) = Z.of_nat (s + 1).
Proof.
  intros HG Hs Hne. unfold position.
  apply Z.eqb_neq in Hne. rewrite Hne, Z.mul_1_r.
  rewrite Nat.add_comm with (n := d * G), Nat.Div0.mod_add, Nat.mod_small by lia.
  apply wrap64_small. unfold int64. lia.
Qed.

Lemma snd_finish r : snd (finish r) = snd r.
Proof. destruct r as [[o|e] st]; reflexivity. Qed.

(** What the attention branch has called by the time it ends, whatever the
    segment encoder answers: the position table on the positions it
    computed, then the segment encoder on the summaries with the rows of
    their positions added. *)
Lemma transformer_branch_calls st ids X e f D G T :
  seg_pos_embeddings (self st) = Some e -> seg_encoder (self st) = Some f ->
  max_segments (self st) = G ->
  shape ids = [D; G; T] ->
  shape (value (weight e)) = [G + 1; hidden_size (self st)] ->
  shape X = [D; G; hidden_size (self st)] ->
  (Z.of_nat G < 2 ^ 63)%Z ->
  snd (transformer_branch ids X st) =
  {| self := self st;
     trace := (trace st ++ [Call_seg_pos_embeddings (seg_positions ids D G T)])
              ++ [Call_seg_encoder (with_positions e ids X D G T (hidden_size (self st)))] |}.
Proof.
  intros He Hf HMS Hi Hw HX HG.
  set (H := hidden_size (self st)) in *.
  unfold transformer_branch, call_seg_pos_embeddings, call_seg_encoder,
    bind, attr, emit, lift, get.
  rewrite HMS, (seg_positions_of_spec ids Hi), He. cbn [self trace].
  fold (seg_positions ids D G T).
  rewrite (@embedding_spec e _ (G + 1) H Hw).
  2:{ unfold seg_positions. cbn [data]. apply Forall_forall. intros z Hz.
      unfold tabulate in Hz. apply in_map_iff in Hz. destruct Hz as (q & <- & Hq).
      apply in_seq in Hq. apply position_range; [exact HG | destruct G; lia]. }
  assert (Hemb : {| shape := shape (seg_positions ids D G T) ++ [H];
                    data := tabulate (numel (shape (seg_positions ids D G T)) * H)
                      (fun q => item f32_zero (value (weight e))
                         (Z.to_nat (item 0%Z (seg_positions ids D G T) (q / H)) * H + q mod H)) |}
                 = looked_up e ids D G T H).
  { unfold looked_up, seg_positions at 1 2. cbn [shape app]. rewrite numel2.
    f_equal. apply tabulate_ext. intros q Hq.
    unfold seg_positions. rewrite item_tabulate; auto.
    apply Nat.Div0.div_lt_upper_bound. lia. }
  rewrite Hemb.
  rewrite pointwise__same_shape by (rewrite HX; reflexivity).
  rewrite HX, numel3. fold (with_positions e ids X D G T H).
  rewrite Hf. cbn [self trace].
  destruct (f (with_positions e ids X D G T H)) as [Y|err]; [|reflexivity].
  destruct (reduce_dim f32_zero f32_max 1 Y); reflexivity.
Qed.

(** C2.  In the attention variant, when the last [k] segments of a
    document hold only zero token ids and every earlier segment has a
    non-zero token-id sum (the sum [torch.sum] returns), a forward call on
    a batch of the configured shape looks up, in the position table, the
    positions [1 .. segments - k], in order, for the earlier segments of
    the document and 0 for exactly the [k] last ones, and hands to the
    segment encoder summaries to which the rows of these positions were
    added: row 0 of the table, the zero vector, for the [k] last ones. *)
Theorem padding_segments_get_position_zero (enc : Encoder) (MSL : nat)
        (obj : HierarchicalBert) (ids mask tys : tensor Z) (D G k d : nat)
        (E : tensor F32) (tr : list event) :
  let H := Config.hidden_size (config enc) in
  let summaries := segment_summaries E D G MSL H in
  init enc G MSL "transformer" = Ok obj ->
  shape ids = [D; G; MSL] -> shape mask = [D; G; MSL] -> shape tys = [D; G; MSL] ->
  0 < MSL -> (Z.of_nat G < 2 ^ 63)%Z ->
  encoder_call enc (Tensor [D * G; MSL] (data ids)) (Tensor [D * G; MSL] (data mask))
               (Tensor [D * G; MSL] (data tys)) = Ok E ->
  shape E = [D * G; MSL; H] ->
  d < D -> k <= G ->
  (forall s t, G - k <= s < G -> t < MSL ->
     item 0%Z ids ((d * G + s) * MSL + t) = 0%Z) ->
  (forall s, s < G - k -> token_id_sum ids MSL (d * G + s) <> 0%Z) ->
  exists pos e emb with_rows,
    (* the positions the call computes and the rows it looks up *)
    seg_positions_of (max_segments obj) ids = Ok pos /\
    seg_pos_embeddings obj = Some e /\
    embedding e pos = Ok emb /\
    (* what the call has called when it ends *)
    trace (snd (forward ids mask tys {| self := obj; trace := tr |})) =
    tr ++ [Call_encoder (Tensor [D * G; MSL] (data ids)) (Tensor [D * G; MSL] (data mask))
                        (Tensor [D * G; MSL] (data tys));
           Call_seg_pos_embeddings pos;
           Call_seg_encoder with_rows] /\
    (* the positions of document [d] *)
    (forall s, s < G - k -> item 0%Z pos (d * G + s) = Z.of_nat (s + 1)) /\
    (forall s, G - k <= s < G -> item 0%Z pos (d * G + s) = 0%Z) /\
    (* the rows added to its summaries *)
    (forall s h, G - k <= s < G -> h < H ->
       item f32_zero emb ((d * G + s) * H + h) = f32_zero /\
       item f32_zero with_rows ((d * G + s) * H + h) =
       f32_add (item f32_zero summaries ((d * G + s) * H + h)) f32_zero) /\
    (forall s h, s < G - k -> h < H ->
       item f32_zero with_rows ((d * G + s) * H + h) =
       f32_add (item f32_zero summaries ((d * G + s) * H + h))
               (item f32_zero (value (weight e)) ((s + 1) * H + h))).
Proof.
  intros H summaries Hinit Hi Hm Htys HMSL HG HE HshE Hd Hk Hpad Hreal.
  rewrite init_transformer in Hinit by (eapply init_ok_supported; eauto).
  injection Hinit as <-. cbn [max_segments seg_pos_embeddings]. fold H.
  set (e := nn_Embedding (G + 1) H (Some 0) (sinusoidal_table (G + 1) H)).
  assert (Hposq : forall s, s < G -> d * G + s < D * G) by (intros; now apply flat_lt).
  assert (Hp0 : forall s, G - k <= s < G -> position ids G MSL (d * G + s) = 0%Z).
  { intros s Hs. apply position_padding. intros t Ht. now apply Hpad. }
  assert (Hp1 : forall s, s < G - k -> position ids G MSL (d * G + s) = Z.of_nat (s + 1)).
  { intros s Hs. apply position_real; auto; lia. }
  assert (Hlook : forall s h, s < G -> h < H ->
            item f32_zero (looked_up e ids D G MSL H) ((d * G + s) * H + h) =
            item f32_zero (value (weight e))
                 (Z.to_nat (position ids G MSL (d * G + s)) * H + h)).
  { intros s h Hs Hh. unfold looked_up.
    rewrite item_tabulate by (apply flat_lt; auto).
    rewrite Nat.div_add_l, Nat.div_small, Nat.add_0_r by lia.
    replace (((d * G + s) * H + h) mod H) with h
      by (rewrite Nat.add_comm, Nat.Div0.mod_add, Nat.mod_small; lia).
    reflexivity. }
  assert (Hrow0 : forall h, h < H ->
            item f32_zero (value (weight e)) (Z.to_nat 0 * H + h) = f32_zero).
  { intros h Hh. unfold e. cbn [nn_Embedding weight value Z.to_nat Nat.mul Nat.add].
    unfold sinusoidal_table. rewrite item_tabulate by nia.
    rewrite Nat.div_small, Nat.mod_small by lia. reflexivity. }
  assert (Hwith : forall s h, s < G -> h < H ->
            item f32_zero (with_positions e ids summaries D G MSL H) ((d * G + s) * H + h) =
            f32_add (item f32_zero summaries ((d * G + s) * H + h))
                    (item f32_zero (value (weight e))
                       (Z.to_nat (position ids G MSL (d * G + s)) * H + h))).
  { intros s h Hs Hh. unfold with_positions.
    rewrite item_tabulate by (apply flat_lt; auto).
    now rewrite Hlook. }
  exists (seg_positions ids D G MSL), e, (looked_up e ids D G MSL H),
         (with_positions e ids summaries D G MSL H).
  split; [exact (seg_positions_of_spec ids Hi)|]. split; [reflexivity|]. split.
  { rewrite (@embedding_spec e _ (G + 1) H); [| reflexivity |].
    2:{ unfold seg_positions. cbn [data]. apply Forall_forall.
        intros z Hz. unfold tabulate in Hz. apply in_map_iff in Hz.
        destruct Hz as (q & <- & Hq). apply in_seq in Hq.
        apply position_range; [exact HG | destruct G; lia]. }
    unfold looked_up, seg_positions at 1 2. cbn [shape app]. rewrite numel2.
    f_equal. f_equal. apply tabulate_ext. intros q Hq.
    unfold seg_positions. rewrite item_tabulate; auto.
    apply Nat.Div0.div_lt_upper_bound. lia. }
  split.
  { erewrite forward_transformer; [| | reflexivity].
    2:{ rewrite (@encode_segments_run _ ids mask tys D G MSL E)
          by (cbn [self encoder]; auto).
        cbn [self max_segments max_segment_length hidden_size]. fold H.
        rewrite HshE, numel3, Nat.eqb_refl.
        destruct (Nat.eqb_spec MSL 0) as [?|_]; [lia|].
        fold (segment_summaries E D G MSL H). reflexivity. }
    rewrite snd_finish.
    erewrite transformer_branch_calls with (e := e) (D := D) (G := G) (T := MSL);
      try reflexivity; auto.
    unfold after_encoder. cbn [self trace hidden_size]. fold H. fold summaries.
    rewrite <- !app_assoc. reflexivity. }
  split.
  { intros s Hs. unfold seg_positions. rewrite item_tabulate by (apply Hposq; lia).
    now apply Hp1. }
  split.
  { intros s Hs. unfold seg_positions. rewrite item_tabulate by (apply Hposq; lia).
    now apply Hp0. }
  split.
  - intros s h Hs Hh. split.
    + rewrite Hlook, Hp0 by (auto; lia). now apply Hrow0.
    + rewrite Hwith, Hp0 by (auto; lia). now rewrite Hrow0.
  - intros s h Hs Hh. rewrite Hwith, Hp1 by (auto; lia).
    rewrite Nat2Z.id. reflexivity.
Qed.


(** C7, as the code has it.  The only check on the shape of a batch is
    the one the views make, and the view back to
    [(documents, max_segments, max_segment_length, hidden)] compares
    numbers of items: whenever [documents * segments * tokens * hidden]
    differs from [documents * max_segments * max_segment_length * hidden],
    the forward pass fails with the dimension error of a view, having
    called nothing but (at most) the base encoder. *)
Theorem item_count_mismatch_raises (st : state) (ids mask tys : tensor Z) (D G T : nat) :
  let MS := max_segments (self st) in
  let MSL := max_segment_length (self st) in
  let H := hidden_size (self st) in
  shape ids = [D; G; T] -> shape mask = [D; G; T] -> shape tys = [D; G; T] ->
  (forall a b c, exists E, encoder_call (encoder (self st)) a b c = Ok E /\
                           shape E = shape a ++ [H]) ->
  D * G * T * H <> D * MS * MSL * H ->
  exists st',
    forward ids mask tys st = (Raise RuntimeError_shape_invalid, st') /\
    self st' = self st /\
    (trace st' = trace st \/
     trace st' = trace st ++ [Call_encoder (Tensor [D * G; T] (data ids))
                                           (Tensor [D * G; T] (data mask))
                                           (Tensor [D * G; T] (data tys))]).
Proof.
  intros MS MSL H Hi Hm Hty Henc Hne.
  destruct T as [|T'].
  - (* no token: the first view cannot infer its free axis *)
    exists st. split; [|auto].
    apply forward_raise.
    destruct (size_last3 ids Hi) as [Hs1 _].
    unfold encode_segments, bind at 1, lift at 1. rewrite Hs1.
    unfold bind at 1, lift at 1, contiguous.
    rewrite (@view_flatten _ ids (D * G) 0) by (rewrite Hi, numel3; lia).
    reflexivity.
  - destruct (Henc (Tensor [D * G; S T'] (data ids)) (Tensor [D * G; S T'] (data mask))
                   (Tensor [D * G; S T'] (data tys))) as (E & HE & HshE).
    cbn [shape app] in HshE.
    eexists. split; [apply forward_raise|].
    + rewrite (@encode_segments_run st ids mask tys D G (S T') E) by (auto; lia).
      fold MS MSL H. cbv zeta. rewrite HshE, numel3.
      destruct (Nat.eqb_spec (D * MS * MSL * H) (D * G * S T' * H)) as [Heq|_];
        [lia | reflexivity].
    + unfold after_encoder. cbn [self trace]. auto.
Qed.

(* ================================================================= *)
(** ** Further properties of the code *)

(** *** The positional table *)

(** X1.  The table builder fails exactly when it is asked for no row:
    numpy then builds a 1-D array, and slicing it with two indices raises
    [IndexError].  With at least one row it returns a table. *)
Theorem sinusoidal_init_raises_iff_no_row (num_embeddings embedding_dim : nat) :
  (num_embeddings = 0 <->
   sinusoidal_init num_embeddings embedding_dim = Raise IndexError) /\
  (1 <= num_embeddings <->
   exists table, sinusoidal_init num_embeddings embedding_dim = Ok table).
Proof.
  destruct num_embeddings as [|n].
  - split; split; auto; try lia. intros [t Ht]. discriminate Ht.
  - rewrite sinusoidal_init_closed_form by lia.
    split; split; try discriminate; try lia. intros _. eexists. reflexivity.
Qed.

Lemma firstn_tabulate {X} k n (f : nat -> X) :
  k <= n -> firstn k (tabulate n f) = tabulate k f.
Proof.
  intros Hk. unfold tabulate.
  replace n with (k + (n - k)) by lia.
  rewrite seq_app, map_app, firstn_app, length_map, length_seq, Nat.sub_diag.
  cbn [firstn]. rewrite app_nil_r. apply firstn_all2.
  rewrite length_map, length_seq. lia.
Qed.

(** X2.  A row of the table depends on its index and on the width only:
    the table for fewer rows is the beginning of the table for more rows,
    so a larger [max_segments] keeps the rows of the positions already
    there. *)
Theorem sinusoidal_init_prefix (n m dim : nat) (small large : tensor F32) :
  n <= m ->
  sinusoidal_init n dim = Ok small ->
  sinusoidal_init m dim = Ok large ->
  data small = firstn (n * dim) (data large).
Proof.
  intros Hnm Hs Hl.
  destruct n as [|n]; [discriminate Hs|].
  rewrite sinusoidal_init_closed_form in Hs, Hl by lia.
  injection Hs as <-. injection Hl as <-. cbn [data].
  rewrite firstn_tabulate by nia. reflexivity.
Qed.

(** *** Segment positions *)

(** X3.  The segment positions are absolute: whatever the pattern of
    padding, segment [s] of a document gets position [s + 1] when its
    token-id sum is not zero and position 0 when it is; segments after a
    padding segment are not renumbered. *)
Theorem seg_positions_absolute (ids : tensor Z) (D G T : nat) :
  shape ids = [D; G; T] -> (Z.of_nat G < 2 ^ 63)%Z ->
  exists pos,
    seg_positions_of G ids = Ok pos /\ shape pos = [D; G] /\ wf pos /\
    forall d s, d < D -> s < G ->
      item 0%Z pos (d * G + s) =
      if (token_id_sum ids T (d * G + s) =? 0)%Z then 0%Z else Z.of_nat (s + 1).
Proof.
  intros Hi HG. eexists. split; [exact (seg_positions_of_spec ids Hi)|].
  split; [reflexivity|]. split.
  { unfold wf. cbn [data shape]. now rewrite length_tabulate, numel2. }
  intros d s Hd Hs. rewrite item_tabulate by now apply flat_lt.
  destruct (token_id_sum ids T (d * G + s) =? 0)%Z eqn:E.
  - unfold position. rewrite E, Z.mul_0_r. reflexivity.
  - apply position_real; auto. now apply Z.eqb_neq.
Qed.




(** *** The attention variant on a batch with another segment count *)

Lemma mul64_arange_mismatch (mask : tensor Z) d g n :
  shape mask = [d; g] -> n <> g -> n <> 1 -> g <> 1 ->
  mul64 (arange 1 (n + 1)) mask = Raise RuntimeError_size_mismatch.
Proof.
  intros Hsh Hng Hn Hg. unfold mul64, pointwise, arange. cbn [shape].
  rewrite Hsh, Nat.add_sub.
  unfold broadcast_shapes. cbn [rev app broadcast_rev]. unfold broadcast_dim.
  apply Nat.eqb_neq in Hng, Hn, Hg. rewrite Hng, Hn, Hg. reflexivity.
Qed.

Lemma seg_positions_of_mismatch ids D G T MS :
  shape ids = [D; G; T] -> MS <> G -> MS <> 1 -> G <> 1 ->
  seg_positions_of MS ids = Raise RuntimeError_size_mismatch.
Proof.
  intros Hi H1 H2 H3. unfold seg_positions_of.
  change 2%Z with (Z.of_nat (length [D; G])).
  rewrite (@sum_dim_spec ids [D; G] T []) by exact Hi.
  cbn [rbind app]. now apply mul64_arange_mismatch with (d := D) (g := G).
Qed.

(** X5.  In the attention variant, a batch whose item count passes the
    view but whose segment count is neither [max_segments] nor 1 (with
    [max_segments] other than 1) is rejected after the base encoder has
    run, by the multiplication of the positions with the segment mask,
    whose sizes cannot be broadcast; nothing else is called. *)
Theorem attention_segment_count_mismatch (st : state) (ids mask tys : tensor Z)
        (D G T : nat) (E : tensor F32) :
  let MS := max_segments (self st) in
  let MSL := max_segment_length (self st) in
  let H := hidden_size (self st) in
  seg_encoder_type (self st) = "transformer"%string ->
  shape ids = [D; G; T] -> shape mask = [D; G; T] -> shape tys = [D; G; T] ->
  0 < T -> 0 < MSL ->
  encoder_call (encoder (self st)) (Tensor [D * G; T] (data ids))
               (Tensor [D * G; T] (data mask)) (Tensor [D * G; T] (data tys)) = Ok E ->
  numel (shape E) = D * MS * MSL * H ->
  G <> MS -> G <> 1 -> MS <> 1 ->
  forward ids mask tys st =
  (Raise RuntimeError_size_mismatch, after_encoder st ids mask tys (D * G) T).
Proof.
  intros MS MSL H Hty Hi Hm Htys HT HMSL HE Hnum HG HG1 HMS1.
  erewrite forward_transformer; [| | exact Hty].
  2:{ rewrite (@encode_segments_run st ids mask tys D G T E) by auto.
      fold MS MSL H. cbv zeta. rewrite Hnum, Nat.eqb_refl.
      destruct (Nat.eqb_spec MSL 0) as [?|_]; [lia | reflexivity]. }
  unfold transformer_branch, bind at 1, get at 1. unfold after_encoder at 1 2.
  cbn [self]. fold MS.
  unfold bind at 1, lift at 1.
  rewrite (@seg_positions_of_mismatch ids D G T MS) by auto.
  reflexivity.
Qed.

(** *** The calls a forward pass makes *)

(** X6.  On a batch of the configured shape the recurrent variant calls
    the base encoder on the flattened batch, then the LSTM on the segment
    summaries, then the down-projection on the last states, in that
    order and nothing else; the object is unchanged. *)
Theorem lstm_call_sequence (enc : Encoder) (MS MSL : nat)
        (obj : HierarchicalBert) (ids mask tys : tensor Z) (D : nat)
        (E L out : tensor F32) (tr : list event) :
  let H := Config.hidden_size (config enc) in
  init enc MS MSL "lstm" = Ok obj ->
  0 < MS -> 0 < MSL ->
  shape ids = [D; MS; MSL] -> shape mask = [D; MS; MSL] -> shape tys = [D; MS; MSL] ->
  encoder_call enc (Tensor [D * MS; MSL] (data ids)) (Tensor [D * MS; MSL] (data mask))
               (Tensor [D * MS; MSL] (data tys)) = Ok E ->
  shape E = [D * MS; MSL; H] ->
  nn_LSTM H H (segment_summaries E D MS MSL H) = Ok L ->
  shape L = [D; MS; 2 * H] ->
  nn_Linear (2 * H) H (last_states D MS H L) = Ok out ->
  snd (forward ids mask tys {| self := obj; trace := tr |}) =
  {| self := obj;
     trace := tr ++ [Call_encoder (Tensor [D * MS; MSL] (data ids))
                                  (Tensor [D * MS; MSL] (data mask))
                                  (Tensor [D * MS; MSL] (data tys));
                     Call_seg_encoder (segment_summaries E D MS MSL H);
                     Call_down_project (last_states D MS H L)] |}.
Proof.
  intros H Hinit HMS HMSL Hi Hm Hty HE HshE HL HshL Hout.
  pose proof (init_ok_supported _ _ _ _ Hinit) as Hs.
  rewrite init_lstm in Hinit by exact Hs. injection Hinit as <-.
  erewrite forward_lstm; [| | reflexivity].
  2:{ rewrite (@encode_segments_run _ ids mask tys D MS MSL E) by (cbn [self encoder]; auto).
      cbn [self max_segments max_segment_length hidden_size]. fold H.
      rewrite HshE, numel3, Nat.eqb_refl.
      destruct (Nat.eqb_spec MSL 0) as [?|_]; [lia|].
      fold (segment_summaries E D MS MSL H). reflexivity. }
  erewrite (@lstm_branch_run _ ids _ _ _ D MS MSL L);
    [| reflexivity | reflexivity | exact Hi | exact HL
     | unfold after_encoder; cbn [self max_segments hidden_size];
       rewrite HshL, numel3; fold H; lia
     | exact HMS ].
  unfold after_encoder. cbn [self max_segments hidden_size trace]. fold H. cbv zeta.
  change (H + (H + 0)) with (2 * H). rewrite Hout. cbn [finish snd].
  rewrite <- !app_assoc. reflexivity.
Qed.

(** X7.  In the attention variant, on a batch of the configured shape,
    the document representation is the item-wise maximum, over the
    segments, of what the segment encoder returns for the summaries with
    the rows of their positions added; the base encoder, the position
    table and the segment encoder are called in that order, and nothing
    else. *)
Theorem attention_document_representation (enc : Encoder) (MS MSL : nat)
        (obj : HierarchicalBert) (e : Embedding) (ids mask tys : tensor Z) (D : nat)
        (E Y : tensor F32) (tr : list event) :
  let H := Config.hidden_size (config enc) in
  let X := with_positions e ids (segment_summaries E D MS MSL H) D MS MSL H in
  init enc MS MSL "transformer" = Ok obj ->
  seg_pos_embeddings obj = Some e ->
  0 < MS -> 0 < MSL -> (Z.of_nat MS < 2 ^ 63)%Z ->
  shape ids = [D; MS; MSL] -> shape mask = [D; MS; MSL] -> shape tys = [D; MS; MSL] ->
  encoder_call enc (Tensor [D * MS; MSL] (data ids)) (Tensor [D * MS; MSL] (data mask))
               (Tensor [D * MS; MSL] (data tys)) = Ok E ->
  shape E = [D * MS; MSL; H] ->
  nn_Transformer_encoder H (Config.num_attention_heads (config enc))
    (Config.intermediate_size (config enc)) (Config.hidden_act (config enc))
    (Config.hidden_dropout_prob (config enc)) (Config.layer_norm_eps (config enc)) X
  = Ok Y ->
  shape Y = [D; MS; H] ->
  forward ids mask tys {| self := obj; trace := tr |} =
  (Ok (output_of (max_over_segments Y D MS H)),
   {| self := obj;
      trace := tr ++ [Call_encoder (Tensor [D * MS; MSL] (data ids))
                                   (Tensor [D * MS; MSL] (data mask))
                                   (Tensor [D * MS; MSL] (data tys));
                      Call_seg_pos_embeddings (seg_positions ids D MS MSL);
                      Call_seg_encoder X] |}).
Proof.
  intros H X Hinit He HMS HMSL HMS63 Hi Hm Hty HE HshE HY HshY.
  pose proof (init_ok_supported _ _ _ _ Hinit) as Hs.
  rewrite init_transformer in Hinit by exact Hs. injection Hinit as <-.
  cbn [seg_pos_embeddings] in He. injection He as <-.
  erewrite forward_transformer; [| | reflexivity].
  2:{ rewrite (@encode_segments_run _ ids mask tys D MS MSL E) by (cbn [self encoder]; auto).
      cbn [self max_segments max_segment_length hidden_size]. fold H.
      rewrite HshE, numel3, Nat.eqb_refl.
      destruct (Nat.eqb_spec MSL 0) as [?|_]; [lia|].
      fold (segment_summaries E D MS MSL H). reflexivity. }
  erewrite (@transformer_branch_run _ ids _ _ _ D MS MSL Y);
    try reflexivity; try assumption.
  unfold after_encoder. cbn [self trace finish hidden_size]. fold H.
  rewrite <- !app_assoc. reflexivity.
Qed.

Lemma emits_ret P {A} (a : A) : emits P (ret a).
Proof. intros st. exists []. split; [now rewrite app_nil_r | constructor]. Qed.

Lemma emits_raise P {A} e : emits P (raise (A := A) e).
Proof. intros st. exists []. split; [now rewrite app_nil_r | constructor]. Qed.

Lemma emits_lift P {A} (r : result A) : emits P (lift r).
Proof. intros st. exists []. split; [now rewrite app_nil_r | constructor]. Qed.

Lemma emits_get P {A} (f : HierarchicalBert -> A) : emits P (get f).
Proof. intros st. exists []. split; [now rewrite app_nil_r | constructor]. Qed.

Lemma emits_attr P {A} (f : HierarchicalBert -> option A) : emits P (attr f).
Proof.
  intros st. exists []. unfold attr.
  destruct (f (self st)); (split; [now rewrite app_nil_r | constructor]).
Qed.

Lemma emits_emit (P : event -> Prop) ev : P ev -> emits P (emit ev).
Proof. intros HP st. exists [ev]. split; [reflexivity | now constructor]. Qed.

Lemma emits_bind P {A B} (m : M A) (k : A -> M B) :
  emits P m -> (forall a, emits P (k a)) -> emits P (bind m k).
Proof.
  intros Hm Hk st. unfold bind. destruct (Hm st) as (evs & Ht & HP).
  destruct (m st) as [[a|e] st']; cbn [snd] in *.
  - destruct (Hk a st') as (evs' & Ht' & HP').
    exists (evs ++ evs'). split.
    + now rewrite Ht', Ht, app_assoc.
    + apply Forall_app. now split.
  - exists evs. now split.
Qed.

Ltac emits_steps :=
  repeat first
    [ apply emits_ret | apply emits_raise | apply emits_lift | apply emits_get
    | apply emits_attr | apply emits_emit; exact (fun F : False => F)
    | apply emits_bind; [| intros ? ] ].

Lemma lstm_branch_emits ids X :
  emits (fun ev => ~ is_encoder_call ev) (lstm_branch ids X).
Proof.
  unfold lstm_branch, call_seg_encoder, call_down_project. emits_steps.
Qed.

Lemma transformer_branch_emits ids X :
  emits (fun ev => ~ is_encoder_call ev) (transformer_branch ids X).
Proof.
  unfold transformer_branch, call_seg_encoder, call_seg_pos_embeddings. emits_steps.
Qed.

(** Lines 82-96 end with the base encoder called once, or fail before
    they call it. *)
Lemma encode_segments_calls ids mask tys st :
  (exists e, encode_segments ids mask tys st = (Raise e, st)) \/
  (exists a b c, trace (snd (encode_segments ids mask tys st)) =
                 trace st ++ [Call_encoder a b c]).
Proof.
  unfold encode_segments, call_encoder, bind, lift, get, emit.
  repeat match goal with
         | |- context [match ?r with Ok _ => _ | Raise _ => _ end] =>
             lazymatch r with
             | context [match _ with Ok _ => _ | Raise _ => _ end] => fail
             | _ => destruct r
             end
         end;
    cbn [snd trace]; eauto.
Qed.

(** X8.  Whatever the batch and the variant, a forward call calls the
    base encoder at most once, and before any other sub-module: the calls
    it adds are none, or one call of the base encoder followed by calls of
    other sub-modules only. *)
Theorem forward_calls_encoder_once_first (ids mask tys : tensor Z) (st : state) :
  exists evs,
    trace (snd (forward ids mask tys st)) = trace st ++ evs /\
    (evs = [] \/
     exists a b c rest,
       evs = Call_encoder a b c :: rest /\
       Forall (fun ev => ~ is_encoder_call ev) rest).
Proof.
  destruct (encode_segments ids mask tys st) as [[X|e] st1] eqn:Hrun.
  - assert (Henc : exists a b c, trace st1 = trace st ++ [Call_encoder a b c]).
    { destruct (encode_segments_calls ids mask tys st) as [(e & He)|Hc].
      - rewrite He in Hrun. discriminate.
      - now rewrite Hrun in Hc. }
    destruct Henc as (a & b & c & Ht1).
    assert (Hrest : exists rest, trace (snd (forward ids mask tys st)) = trace st1 ++ rest /\
                                 Forall (fun ev => ~ is_encoder_call ev) rest).
    { destruct (String.eqb_spec (seg_encoder_type (self st)) "lstm") as [Hl|Hl].
      { rewrite (forward_lstm _ _ _ _ Hrun Hl), snd_finish. apply lstm_branch_emits. }
      destruct (String.eqb_spec (seg_encoder_type (self st)) "transformer") as [Ht|Ht].
      { rewrite (forward_transformer _ _ _ _ Hrun Ht), snd_finish.
        apply transformer_branch_emits. }
      rewrite (forward_other _ _ _ _ Hrun Hl Ht). exists [].
      split; [now rewrite app_nil_r | constructor]. }
    destruct Hrest as (rest & Hrest & Hnone).
    exists (Call_encoder a b c :: rest). split.
    + rewrite Hrest, Ht1, <- app_assoc. reflexivity.
    + right. now exists a, b, c, rest.
  - rewrite (forward_raise _ _ _ _ Hrun). cbn [snd].
    destruct (encode_segments_calls ids mask tys st) as [(e' & He)|(a & b & c & Hc)].
    + rewrite He in Hrun. injection Hrun as _ <-. exists [].
      split; [now rewrite app_nil_r | now left].
    + rewrite Hrun in Hc. cbn [snd] in Hc. exists [Call_encoder a b c].
      split; [exact Hc|]. right. exists a, b, c, []. split; [reflexivity | constructor].
Qed.

(** *** The attention variant on a batch with a single segment *)

Lemma mul64_arange_single (mask : tensor Z) d n :
  shape mask = [d; 1] ->
  mul64 (arange 1 (n + 1)) mask =
  Ok (Tensor [d; n]
        (tabulate (d * n) (fun q =>
           wrap64 (Z.of_nat (q mod n + 1) * item 0%Z mask (q / n))))).
Proof.
  intros Hsh. unfold mul64, pointwise, arange. cbn [shape].
  rewrite Hsh, Nat.add_sub.
  unfold broadcast_shapes. cbn [rev app broadcast_rev].
  assert (Hb : broadcast_dim n 1 = Ok n).
  { unfold broadcast_dim. destruct (Nat.eqb_spec n 1) as [->|Hn]; reflexivity. }
  rewrite Hb. cbn [rbind rev app]. rewrite numel2.
  f_equal. f_equal. apply tabulate_ext. intros q Hq. cbv zeta.
  assert (Hn : 0 < n) by (destruct n; lia).
  assert (Hm : q mod n < n) by (apply Nat.mod_upper_bound; lia).
  assert (Hd : q / n < d) by (apply Nat.Div0.div_lt_upper_bound; lia).
  unfold bcast_offset, item.
  cbn [unravel length Nat.sub skipn combine map fst snd ravel data Nat.eqb].
  change (numel []) with 1. change (numel [n]) with (n * 1). change (numel [1]) with (1 * 1).
  rewrite !Nat.div_1_r, !Nat.mul_1_r, !Nat.add_0_r. cbn [Nat.mul Nat.add].
  f_equal. f_equal.
  - destruct (Nat.eqb_spec n 1) as [->|Hne].
    + rewrite Nat.mod_1_r. reflexivity.
    + rewrite (nth_indep _ 0%Z (Z.of_nat 0)) by (rewrite length_map, length_seq; lia).
      rewrite map_nth, seq_nth by lia. f_equal. lia.
  - f_equal. rewrite Nat.mod_small by lia.
    destruct (Nat.eqb_spec d 1) as [->|Hne]; lia.
Qed.

Lemma seg_positions_of_single ids D T MS :
  shape ids = [D; 1; T] ->
  seg_positions_of MS ids =
  Ok (Tensor [D; MS]
        (tabulate (D * MS) (fun q =>
           wrap64 (Z.of_nat (q mod MS + 1) *
                   (if (token_id_sum ids T (q / MS) =? 0)%Z then 0 else 1))))).
Proof.
  intros Hi. unfold seg_positions_of.
  change 2%Z with (Z.of_nat (length [D; 1])).
  rewrite (@sum_dim_spec ids [D; 1] T []) by exact Hi.
  cbn [rbind app]. change (numel []) with 1. rewrite numel2, !Nat.mul_1_r.
  unfold ne_zero. cbn [shape data].
  rewrite (@mul64_arange_single _ D MS) by reflexivity.
  f_equal. f_equal. apply tabulate_ext. intros q Hq.
  assert (Hd : q / MS < D) by (apply Nat.Div0.div_lt_upper_bound; lia).
  unfold token_id_sum, item at 1. cbn [data].
  unfold tabulate at 1. rewrite map_map.
  fold (tabulate D (fun x =>
          if (wrap64 (Zsum (map (fun j => item 0%Z ids (axis_offset T 1 x j)) (seq 0 T))) =? 0)%Z
          then 0%Z else 1%Z)).
  rewrite nth_tabulate by exact Hd.
  replace (map (fun j => item 0%Z ids (axis_offset T 1 (q / MS) j)) (seq 0 T))
    with (map (fun j => item 0%Z ids (q / MS * T + j)) (seq 0 T)); [reflexivity|].
  apply map_ext. intros j.
  unfold axis_offset. rewrite Nat.div_1_r, Nat.mod_1_r. f_equal. lia.
Qed.

(** The attention branch, for any positions the multiplication returns
    with the shape of the segment summaries. *)
Lemma transformer_branch_accepts st ids X e f pos D MS H :
  seg_pos_embeddings (self st) = Some e -> seg_encoder (self st) = Some f ->
  max_segments (self st) = MS -> hidden_size (self st) = H ->
  seg_positions_of MS ids = Ok pos -> shape pos = [D; MS] ->
  Forall (fun z => (0 <= z < Z.of_nat (MS + 1))%Z) (data pos) ->
  shape (value (weight e)) = [MS + 1; H] ->
  shape X = [D; MS; H] -> 0 < MS ->
  maps_last_axis3 f H H ->
  exists pooled,
    fst (transformer_branch ids X st) = Ok pooled /\ shape pooled = [D; H].
Proof.
  intros He Hf HMS HH Hpos Hshp Hrange Hw HX Hgt Hmaps.
  unfold transformer_branch, call_seg_pos_embeddings, call_seg_encoder,
    bind, attr, emit, lift, get.
  rewrite HMS, Hpos, He. cbn [self trace].
  rewrite (@embedding_spec e pos (MS + 1) H Hw Hrange).
  rewrite pointwise__same_shape by (rewrite HX, Hshp; reflexivity).
  rewrite Hf. cbn [self trace].
  match goal with
  | |- context [f ?x] => destruct (Hmaps x D MS) as (Y & HY & HshY); [exact HX|]
  end.
  rewrite HY.
  change 1%Z with (Z.of_nat (length [D])).
  destruct MS as [|m]; [lia|].
  rewrite (@reduce_dim_spec _ f32_zero f32_max Y [D] m [H]) by exact HshY.
  eexists. split; reflexivity.
Qed.

(** X9.  The attention variant accepts a batch with a single segment of
    [max_segments * max_segment_length] tokens per document: the view
    cuts the tokens of that segment into [max_segments] pieces, the mask
    of the single segment is broadcast over the positions
    [1 .. max_segments], and a representation of shape
    [(documents, hidden)] comes back. *)
Theorem single_segment_batch_accepted (enc : Encoder) (MS MSL : nat)
        (obj : HierarchicalBert) (ids mask tys : tensor Z) (D : nat)
        (tr : list event) :
  let H := Config.hidden_size (config enc) in
  init enc MS MSL "transformer" = Ok obj ->
  0 < MS -> 0 < MSL -> (Z.of_nat MS < 2 ^ 63)%Z ->
  shape ids = [D; 1; MS * MSL] -> shape mask = [D; 1; MS * MSL] ->
  shape tys = [D; 1; MS * MSL] ->
  encoder_returns_states enc ->
  maps_last_axis3 (nn_Transformer_encoder H (Config.num_attention_heads (config enc))
                     (Config.intermediate_size (config enc))
                     (Config.hidden_act (config enc))
                     (Config.hidden_dropout_prob (config enc))
                     (Config.layer_norm_eps (config enc))) H H ->
  exists pos pooled,
    seg_positions_of MS ids = Ok pos /\ shape pos = [D; MS] /\
    (forall d j, d < D -> j < MS ->
       item 0%Z pos (d * MS + j) =
       if (token_id_sum ids (MS * MSL) d =? 0)%Z then 0%Z else Z.of_nat (j + 1)) /\
    fst (forward ids mask tys {| self := obj; trace := tr |}) = Ok (output_of pooled) /\
    shape pooled = [D; H].
Proof.
  intros H Hinit HMS HMSL HMS63 Hi Hm Htys Henc Htr.
  pose proof (init_ok_supported _ _ _ _ Hinit) as Hs.
  rewrite init_transformer in Hinit by exact Hs.
  assert (Hobj : encoder obj = enc /\ hidden_size obj = H /\ max_segments obj = MS /\
                 max_segment_length obj = MSL /\
                 seg_encoder_type obj = "transformer"%string /\
                 seg_encoder obj =
                 Some (nn_Transformer_encoder H (Config.num_attention_heads (config enc))
                         (Config.intermediate_size (config enc))
                         (Config.hidden_act (config enc))
                         (Config.hidden_dropout_prob (config enc))
                         (Config.layer_norm_eps (config enc))) /\
                 seg_pos_embeddings obj =
                 Some (nn_Embedding (MS + 1) H (Some 0) (sinusoidal_table (MS + 1) H)))
    by (injection Hinit as <-; repeat split).
  clear Hinit. destruct Hobj as (Ho1 & Ho2 & Ho3 & Ho4 & Ho5 & Ho6 & Ho7).
  destruct (Henc (Tensor [D * 1; MS * MSL] (data ids))
                 (Tensor [D * 1; MS * MSL] (data mask))
                 (Tensor [D * 1; MS * MSL] (data tys)) (D * 1) (MS * MSL) eq_refl)
    as (E & HE & HshE). fold H in HshE.
  pose proof (@seg_positions_of_single ids D (MS * MSL) MS Hi) as Hpos.
  set (pos := Tensor [D; MS] _) in Hpos.
  assert (Hitem : forall d j, d < D -> j < MS ->
            item 0%Z pos (d * MS + j) =
            if (token_id_sum ids (MS * MSL) d =? 0)%Z then 0%Z else Z.of_nat (j + 1)).
  { intros d j Hd Hj. unfold pos. rewrite item_tabulate by now apply flat_lt.
    rewrite Nat.div_add_l, Nat.div_small, Nat.add_0_r by lia.
    rewrite Nat.add_comm with (n := d * MS), Nat.Div0.mod_add, Nat.mod_small by lia.
    destruct (token_id_sum ids (MS * MSL) d =? 0)%Z.
    - now rewrite Z.mul_0_r.
    - rewrite Z.mul_1_r. apply wrap64_small. unfold int64. lia. }
  assert (Hrange : Forall (fun z => (0 <= z < Z.of_nat (MS + 1))%Z) (data pos)).
  { apply Forall_forall. intros z Hz. unfold pos in Hz. cbn [data] in Hz.
    unfold tabulate in Hz. apply in_map_iff in Hz. destruct Hz as (q & <- & Hq).
    assert (Hmod : q mod MS < MS) by (apply Nat.mod_upper_bound; lia).
    destruct (token_id_sum ids (MS * MSL) (q / MS) =? 0)%Z.
    - rewrite Z.mul_0_r. change (wrap64 0) with 0%Z. lia.
    - rewrite Z.mul_1_r, wrap64_small by (unfold int64; lia). lia. }
  set (st := {| self := obj; trace := tr |}).
  assert (Hrun : encode_segments ids mask tys st =
                 (Ok (segment_summaries E D MS MSL H),
                  after_encoder st ids mask tys (D * 1) (MS * MSL))).
  { rewrite (@encode_segments_run st ids mask tys D 1 (MS * MSL) E)
      by (cbn [self st]; rewrite ?Ho1; auto; nia).
    cbn [self st]. rewrite Ho2, Ho3, Ho4, HshE, numel3.
    replace (D * MS * MSL * H =? D * 1 * (MS * MSL) * H) with true
      by (symmetry; apply Nat.eqb_eq; lia).
    destruct (Nat.eqb_spec MSL 0) as [?|_]; [lia|]. reflexivity. }
  destruct (@transformer_branch_accepts
              (after_encoder st ids mask tys (D * 1) (MS * MSL))
              ids (segment_summaries E D MS MSL H) _ _ pos D MS H
              Ho7 Ho6 Ho3 Ho2 Hpos eq_refl Hrange eq_refl eq_refl HMS Htr)
    as (pooled & Hbranch & Hshape).
  exists pos, pooled. split; [exact Hpos|]. split; [reflexivity|]. split; [exact Hitem|].
  split; [|exact Hshape].
  erewrite forward_transformer; [| exact Hrun | exact Ho5].
  destruct (transformer_branch ids _ _) as [[o|e] st2]; cbn [fst] in Hbranch.
  - injection Hbranch as ->. reflexivity.
  - discriminate Hbranch.
Qed.

(** *** What a returned record always looks like *)

(** X13.  Whatever the batch, whenever a forward call returns, the
    selector of the object is "lstm" or "transformer", the record holds
    one tensor in both [last_hidden_state] and [hidden_states], and its
    three other fields are unset. *)
Theorem forward_returns_pooled_twice (ids mask tys : tensor Z) (st : state)
        (o : SimpleOutput) :
  fst (forward ids mask tys st) = Ok o ->
  (seg_encoder_type (self st) = "lstm"%string \/
   seg_encoder_type (self st) = "transformer"%string) /\
  exists pooled,
    last_hidden_state o = Some pooled /\ hidden_states o = Some pooled /\
    past_key_values o = None /\ attentions o = None /\ cross_attentions o = None.
Proof.
  intros Hok.
  destruct (encode_segments ids mask tys st) as [[X|e] st1] eqn:Hrun.
  2:{ rewrite (forward_raise _ _ _ _ Hrun) in Hok. discriminate. }
  assert (Hfin : forall r, fst (finish r) = Ok o ->
            exists pooled, last_hidden_state o = Some pooled /\
              hidden_states o = Some pooled /\ past_key_values o = None /\
              attentions o = None /\ cross_attentions o = None).
  { intros [[p|e] st2] Hr; cbn [finish fst] in Hr; [|discriminate].
    injection Hr as <-. exists p. repeat split. }
  destruct (String.eqb_spec (seg_encoder_type (self st)) "lstm") as [Hl|Hl].
  { split; [now left|]. rewrite (forward_lstm _ _ _ _ Hrun Hl) in Hok. now apply Hfin in Hok. }
  destruct (String.eqb_spec (seg_encoder_type (self st)) "transformer") as [Ht|Ht].
  { split; [now right|]. rewrite (forward_transformer _ _ _ _ Hrun Ht) in Hok.
    now apply Hfin in Hok. }
  rewrite (forward_other _ _ _ _ Hrun Hl Ht) in Hok. discriminate.
Qed.

(** *** Batches of another shape with the same number of items *)

(** X14.  The recurrent variant accepts every batch whose number of
    items per document, [segments * tokens], is
    [max_segments * max_segment_length], whatever its segment count: it
    returns a representation of shape [(documents, hidden)]. *)
Theorem lstm_accepts_equal_item_count (enc : Encoder) (MS MSL : nat)
        (obj : HierarchicalBert) (ids mask tys : tensor Z) (D G T : nat)
        (tr : list event) :
  let H := Config.hidden_size (config enc) in
  init enc MS MSL "lstm" = Ok obj ->
  0 < MS -> 0 < MSL -> 0 < T -> G * T = MS * MSL ->
  shape ids = [D; G; T] -> shape mask = [D; G; T] -> shape tys = [D; G; T] ->
  encoder_returns_states enc ->
  maps_last_axis3 (nn_LSTM H H) H (2 * H) ->
  maps_last_axis2 (nn_Linear (2 * H) H) (2 * H) H ->
  exists pooled,
    fst (forward ids mask tys {| self := obj; trace := tr |}) = Ok (output_of pooled) /\
    shape pooled = [D; H].
Proof.
  intros H Hinit HMS HMSL HT Hcount Hi Hm Htys Henc Hlstm Hlin.
  pose proof (init_ok_supported _ _ _ _ Hinit) as Hs.
  rewrite init_lstm in Hinit by exact Hs. injection Hinit as <-.
  destruct (Henc (Tensor [D * G; T] (data ids)) (Tensor [D * G; T] (data mask))
                 (Tensor [D * G; T] (data tys)) (D * G) T eq_refl)
    as (E & HE & HshE). fold H in HshE.
  destruct (Hlstm (segment_summaries E D MS MSL H) D MS eq_refl) as (L & HL & HshL).
  destruct (Hlin (last_states D MS H L) D) as (out & Hout & Hshout).
  { unfold last_states. cbn [shape]. do 2 f_equal. lia. }
  erewrite forward_lstm; [| | reflexivity].
  2:{ rewrite (@encode_segments_run _ ids mask tys D G T E) by (cbn [self encoder]; auto).
      cbn [self max_segments max_segment_length hidden_size]. fold H.
      rewrite HshE, numel3.
      replace (D * MS * MSL * H =? D * G * T * H) with true
        by (symmetry; apply Nat.eqb_eq; rewrite <- !Nat.mul_assoc, (Nat.mul_assoc G T H),
            (Nat.mul_assoc MS MSL H), Hcount; reflexivity).
      destruct (Nat.eqb_spec MSL 0) as [?|_]; [lia|].
      fold (segment_summaries E D MS MSL H). reflexivity. }
  erewrite (@lstm_branch_run _ ids _ _ _ D G T L);
    [| reflexivity | reflexivity | exact Hi | exact HL
     | unfold after_encoder; cbn [self max_segments hidden_size];
       rewrite HshL, numel3; fold H; lia
     | exact HMS ].
  unfold after_encoder. cbn [self max_segments hidden_size]. fold H. cbv zeta.
  change (H + (H + 0)) with (2 * H). rewrite Hout.
  exists out. split; [reflexivity | exact Hshout].
Qed.

(** X15.  Whatever the base encoder returns, the summary in slot
    [(d, s)] is the hidden state of one token: with [q] the number
    [(d * max_segments + s) * max_segment_length], it is token [q mod T]
    of flat row [q / T] of the encoder's output.  For a batch of the
    configured shape that is token 0 of row [d * max_segments + s]; for
    another batch with the same number of items it need not be the first
    token of a segment. *)
Theorem summaries_read_one_token_each (st : state) (ids mask tys : tensor Z)
        (D G T : nat) (E : tensor F32) :
  let MS := max_segments (self st) in
  let MSL := max_segment_length (self st) in
  let H := hidden_size (self st) in
  shape ids = [D; G; T] -> shape mask = [D; G; T] -> shape tys = [D; G; T] ->
  0 < T -> 0 < MSL -> G * T = MS * MSL ->
  encoder_call (encoder (self st)) (Tensor [D * G; T] (data ids))
               (Tensor [D * G; T] (data mask)) (Tensor [D * G; T] (data tys)) = Ok E ->
  shape E = [D * G; T; H] ->
  exists summaries,
    fst (encode_segments ids mask tys st) = Ok summaries /\
    shape summaries = [D; MS; H] /\
    (forall d s h, d < D -> s < MS -> h < H ->
       let q := (d * MS + s) * MSL in
       item f32_zero summaries ((d * MS + s) * H + h) =
       item f32_zero E ((q / T * T + q mod T) * H + h)) /\
    (G = MS -> forall d s h, d < D -> s < MS -> h < H ->
       item f32_zero summaries ((d * MS + s) * H + h) =
       item f32_zero E (((d * MS + s) * T + 0) * H + h)).
Proof.
  intros MS MSL H Hi Hm Htys HT HMSL Hcount HE HshE.
  rewrite (@encode_segments_run st ids mask tys D G T E) by auto.
  fold MS MSL H. cbv zeta. rewrite HshE, numel3.
  replace (D * MS * MSL * H =? D * G * T * H) with true
    by (symmetry; apply Nat.eqb_eq; rewrite <- !Nat.mul_assoc, (Nat.mul_assoc G T H),
        (Nat.mul_assoc MS MSL H), Hcount; reflexivity).
  destruct (Nat.eqb_spec MSL 0) as [?|_]; [lia|].
  fold (segment_summaries E D MS MSL H).
  exists (segment_summaries E D MS MSL H). split; [reflexivity|].
  split; [reflexivity|]. split.
  - intros d s h Hd Hs Hh. rewrite segment_summaries_item by assumption.
    set (q := (d * MS + s) * MSL). f_equal. f_equal. f_equal.
    rewrite Nat.add_0_r, (Nat.mul_comm (q / T) T). apply Nat.div_mod_eq.
  - intros HG d s h Hd Hs Hh. rewrite segment_summaries_item by assumption.
    assert (HTM : T = MSL) by (rewrite HG in Hcount; nia).
    now rewrite HTM.
Qed.

End ForwardFacts.

(* ================================================================= *)
(** ** The claims at concrete inputs *)

Section Concrete.
#[local] Existing Instances StandIn.floats StandIn.torch.
Import StandIn.

Lemma base_returns_states family h : encoder_returns_states (base family h).
Proof.
  intros a b c n t Ha. eexists. split; [reflexivity|].
  cbn [shape config cfg Config.hidden_size]. now rewrite Ha.
Qed.

Lemma base_appends_hidden family h a b c :
  exists E, encoder_call (base family h) a b c = Ok E /\ shape E = shape a ++ [h].
Proof. eexists. split; reflexivity. Qed.

Lemma lstm_maps h : maps_last_axis3 (nn_LSTM h h) h (2 * h).
Proof.
  intros x d s Hx. cbn [nn_LSTM torch]. rewrite Hx. eexists. split; reflexivity.
Qed.

Lemma linear_maps i o : maps_last_axis2 (nn_Linear i o) i o.
Proof.
  intros x d Hx. cbn [nn_Linear torch]. rewrite Hx. eexists. split; reflexivity.
Qed.

Lemma transformer_maps h a b c p q :
  maps_last_axis3 (nn_Transformer_encoder h a b c p q) h h.
Proof. intros x d s Hx. exists x. split; [reflexivity | exact Hx]. Qed.

Lemma supported_bert h : supported (base "bert" h).
Proof. unfold supported. cbn. auto. Qed.

(** Unique markers come back at their own slots. *)
Lemma flatten_reshape_keeps_order_witness :
  exists summaries,
    fst (encode_segments markers markers markers
           {| self := identity_object; trace := [] |})
    = Ok summaries /\
    shape summaries = [2; 3; 1] /\
    forall d s, d < 2 -> s < 3 ->
      item f32_zero summaries ((d * 3 + s) * 1 + 0) =
      item 0%Z markers ((d * 3 + s) * 2 + 0).
Proof.
  apply flatten_reshape_keeps_order with (cfg := cfg "bert" 1) (marker := fun z => z);
    try reflexivity.
  lia.
Defined.

(** The second document of [batch] ends with one padding segment: the
    forward call of the attention variant looks up the positions 1, 2, 0
    for it and adds the zero vector to the summary of its last segment. *)
Lemma padding_segments_get_position_zero_witness :
  exists obj E pos with_rows,
    init (base "bert" 2) 3 4 "transformer" = Ok obj /\
    encoder_call (base "bert" 2) (Tensor [2 * 3; 4] (data batch))
                 (Tensor [2 * 3; 4] (data ones)) (Tensor [2 * 3; 4] (data zeros)) = Ok E /\
    seg_positions_of (max_segments obj) batch = Ok pos /\
    trace (snd (forward batch ones zeros {| self := obj; trace := [] |})) =
    [Call_encoder (Tensor [2 * 3; 4] (data batch)) (Tensor [2 * 3; 4] (data ones))
                  (Tensor [2 * 3; 4] (data zeros));
     Call_seg_pos_embeddings pos;
     Call_seg_encoder with_rows] /\
    item 0%Z pos (1 * 3 + 0) = 1%Z /\
    item 0%Z pos (1 * 3 + 1) = 2%Z /\
    item 0%Z pos (1 * 3 + 2) = 0%Z /\
    item f32_zero with_rows ((1 * 3 + 2) * 2 + 1) =
    f32_add (item f32_zero (segment_summaries E 2 3 4 2) ((1 * 3 + 2) * 2 + 1)) f32_zero.
Proof.
  destruct (init (base "bert" 2) 3 4 "transformer") as [obj|e0] eqn:Hinit;
    [|discriminate (eq_trans (eq_sym Hinit) (init_transformer 3 4 (supported_bert 2)))].
  destruct (base_returns_states "bert" 2 (Tensor [2 * 3; 4] (data batch))
              (Tensor [2 * 3; 4] (data ones)) (Tensor [2 * 3; 4] (data zeros)) eq_refl)
    as (E & HE & HshE).
  assert (Hpad : forall s t, 3 - 1 <= s < 3 -> t < 4 ->
                   item 0%Z batch ((1 * 3 + s) * 4 + t) = 0%Z).
  { intros s t Hs Ht. assert (s = 2) by lia. subst s.
    destruct t as [|[|[|[|t]]]]; try reflexivity. lia. }
  assert (Hreal : forall s, s < 3 - 1 -> token_id_sum batch 4 (1 * 3 + s) <> 0%Z).
  { intros s Hs. destruct s as [|[|s]]; [vm_compute; discriminate ..|lia]. }
  destruct (@padding_segments_get_position_zero _ _ (base "bert" 2) 4 obj batch ones zeros
              2 3 1 1 E [] Hinit eq_refl eq_refl eq_refl
              (Nat.lt_0_succ 3) eq_refl HE HshE (Nat.lt_succ_diag_r 1) (Nat.lt_0_succ 2)
              Hpad Hreal)
    as (pos & e & emb & with_rows & Hpos & _ & _ & Htr & Hp1 & Hp0 & Hrow0 & _).
  exists obj, E, pos, with_rows.
  split; [reflexivity|]. split; [exact HE|]. split; [exact Hpos|]. split; [exact Htr|].
  split; [apply (Hp1 0); lia|]. split; [apply (Hp1 1); lia|].
  split; [apply (Hp0 2); lia|].
  apply (Hrow0 2 1); [lia|]. cbn. lia.
Defined.

(** A table of three rows and four columns. *)
Lemma sinusoidal_init_table_witness :
  exists table,
    sinusoidal_init 3 4 = Ok table /\ shape table = [3; 4] /\
    item f32_zero table (0 * 4 + 1) = f32_zero /\
    item f32_zero table (2 * 4 + 2) = f32_of_f64 (f64_sin (angle 4 2 2)) /\
    item f32_zero table (2 * 4 + 3) = f32_of_f64 (f64_cos (angle 4 2 3)).
Proof.
  destruct (@sinusoidal_init_table _ 3 4) as (table & Ht & Hsh & _ & H0 & Hp).
  - lia.
  - reflexivity.
  - exists table. split; [exact Ht|]. split; [exact Hsh|].
    split; [apply H0; lia|]. split; [apply (Hp 2 2); lia | apply (Hp 2 3); lia].
Defined.


(** A base encoder of family "gpt2" is refused by the constructor. *)
Lemma init_fails_fast_witness :
  init (base "gpt2" 8) 3 4 "transformer" = Raise AssertionError /\
  exists obj, init (base "roberta" 8) 3 4 "lstm" = Ok obj.
Proof.
  split.
  - apply (proj1 (init_fails_fast (base "gpt2" 8) 3 4 "transformer")).
    cbn. intros [H|[H|[H|[H|[]]]]]; discriminate H.
  - apply (proj2 (init_fails_fast (base "roberta" 8) 3 4 "lstm")).
    cbn. auto.
Defined.

(** The recurrent variant on [batch]. *)
Lemma lstm_document_representation_witness :
  exists obj E L out,
    init (base "bert" 2) 3 4 "lstm" = Ok obj /\
    encoder_call (base "bert" 2) (Tensor [2 * 3; 4] (data batch))
                 (Tensor [2 * 3; 4] (data ones)) (Tensor [2 * 3; 4] (data zeros)) = Ok E /\
    nn_LSTM 2 2 (segment_summaries E 2 3 4 2) = Ok L /\
    nn_Linear (2 * 2) 2 (last_states 2 3 2 L) = Ok out /\
    fst (forward batch ones zeros {| self := obj; trace := [] |}) =
    Ok {| last_hidden_state := Some out; past_key_values := None;
          hidden_states := Some out; attentions := None; cross_attentions := None |}.
Proof.
  destruct (init (base "bert" 2) 3 4 "lstm") as [obj|e] eqn:Hinit;
    [|discriminate (eq_trans (eq_sym Hinit) (init_lstm 3 4 (supported_bert 2)))].
  destruct (base_returns_states "bert" 2 (Tensor [2 * 3; 4] (data batch))
              (Tensor [2 * 3; 4] (data ones)) (Tensor [2 * 3; 4] (data zeros)) eq_refl)
    as (E & HE & HshE).
  destruct (@lstm_maps 2 (segment_summaries E 2 3 4 2) 2 3 eq_refl) as (L & HL & HshL).
  destruct (@linear_maps (2 * 2) 2 (last_states 2 3 2 L) 2 eq_refl) as (out & Hout & _).
  exists obj, E, L, out. repeat split; auto.
  apply (@lstm_document_representation _ _ (base "bert" 2) 3 4 obj batch ones zeros 2
           E L out []); auto; lia.
Defined.

(** C7 fails as stated: one document of two segments of six tokens, given
    to an object configured for three segments of four tokens, is not
    rejected; the recurrent variant returns a representation for it. *)
Lemma shape_mismatch_not_rejected :
  exists obj,
    init (base "bert" 2) 3 4 "lstm" = Ok obj /\
    shape odd_batch = [1; 2; 6] /\
    2 <> max_segments obj /\ 6 <> max_segment_length obj /\
    ~ rejected_by_view {| self := obj; trace := [] |} odd_batch odd_batch odd_batch.
Proof.
  eexists. split; [reflexivity|]. split; [reflexivity|].
  split; [cbn; lia|]. split; [cbn; lia|].
  unfold rejected_by_view. vm_compute. discriminate.
Qed.

(** An item-count mismatch on the same object is rejected by the view. *)
Lemma item_count_mismatch_raises_witness :
  exists obj st',
    init (base "bert" 2) 3 4 "lstm" = Ok obj /\
    forward (Tensor [2; 3; 5] (repeat 7%Z 30)) (Tensor [2; 3; 5] (repeat 1%Z 30))
            (Tensor [2; 3; 5] (repeat 0%Z 30)) {| self := obj; trace := [] |}
    = (Raise RuntimeError_shape_invalid, st').
Proof.
  destruct (init (base "bert" 2) 3 4 "lstm") as [obj|e] eqn:Hinit;
    [|discriminate (eq_trans (eq_sym Hinit) (init_lstm 3 4 (supported_bert 2)))].
  assert (Hobj : encoder obj = base "bert" 2 /\ max_segments obj = 3 /\
                 max_segment_length obj = 4 /\ hidden_size obj = 2).
  { rewrite init_lstm in Hinit by apply supported_bert. now injection Hinit as <-. }
  destruct Hobj as (He & HMS & HMSL & HH).
  destruct (@item_count_mismatch_raises _ {| self := obj; trace := [] |}
              (Tensor [2; 3; 5] (repeat 7%Z 30)) (Tensor [2; 3; 5] (repeat 1%Z 30))
              (Tensor [2; 3; 5] (repeat 0%Z 30)) 2 3 5 eq_refl eq_refl eq_refl)
    as (st' & Hfwd & _).
  - cbn [self]. rewrite He, HH. intros a b c. apply base_appends_hidden.
  - cbn [self]. rewrite HMS, HMSL, HH. lia.
  - exists obj, st'. split; [reflexivity | exact Hfwd].
Defined.

(** C8 fails as stated: the table the constructor hands to
    [nn.Embedding] is a parameter that requires a gradient, so it is among
    the learned parameters. *)
Lemma position_table_is_learned :
  exists obj,
    init (base "bert" 2) 3 4 "transformer" = Ok obj /\ ~ table_not_learned obj.
Proof.
  eexists. split; [apply init_transformer, supported_bert|].
  intros Hfrozen. specialize (Hfrozen _ eq_refl). discriminate Hfrozen.
Qed.

(** The table of an attention-variant object before and after a call. *)
Lemma position_table_kept_by_forward_witness :
  exists obj e,
    init (base "bert" 2) 3 4 "transformer" = Ok obj /\
    seg_pos_embeddings obj = Some e /\
    sinusoidal_init 4 2 = Ok (value (weight e)) /\
    seg_pos_embeddings
      (self (snd (forward batch ones zeros {| self := obj; trace := [] |}))) = Some e.
Proof.
  destruct (init (base "bert" 2) 3 4 "transformer") as [obj|e] eqn:Hinit;
    [|discriminate (eq_trans (eq_sym Hinit) (init_transformer 3 4 (supported_bert 2)))].
  destruct (@position_table_kept_by_forward _ _ (base "bert" 2) 3 4 "transformer" obj Hinit)
    as (Htable & _ & Hkept).
  destruct (Htable eq_refl) as (e & He & Hsin & _).
  exists obj, e. split; [reflexivity|]. split; [exact He|]. split; [exact Hsin|].
  rewrite Hkept. exact He.
Defined.

(** A selector that names no variant. *)
Lemma unknown_variant_unbound_local_witness :
  exists obj,
    init (base "bert" 2) 3 4 "gru" = Ok obj /\
    fst (forward batch ones zeros {| self := obj; trace := [] |}) = Raise UnboundLocalError /\
    seg_encoder obj = None.
Proof.
  destruct (@unknown_variant_unbound_local _ _ (base "bert" 2) 3 4 "gru")
    as (obj & Hinit & Hse & _ & _ & Hfwd).
  - apply supported_bert.
  - discriminate.
  - discriminate.
  - exists obj. split; [exact Hinit|]. split; [|exact Hse].
    destruct (base_returns_states "bert" 2 (Tensor [2 * 3; 4] (data batch))
                (Tensor [2 * 3; 4] (data ones)) (Tensor [2 * 3; 4] (data zeros)) eq_refl)
      as (E & HE & HshE).
    rewrite (Hfwd batch ones zeros 2 E []); auto.
    rewrite HshE. rewrite init_other in Hinit by (try apply supported_bert; discriminate).
    now injection Hinit as <-.
Defined.

(** *** The further properties at concrete inputs *)

Lemma sinusoidal_init_raises_iff_no_row_witness :
  sinusoidal_init 0 4 = Raise IndexError /\ exists table, sinusoidal_init 1 4 = Ok table.
Proof.
  split.
  - now apply (proj1 (proj1 (sinusoidal_init_raises_iff_no_row 0 4))).
  - apply (proj1 (proj2 (sinusoidal_init_raises_iff_no_row 1 4))). lia.
Defined.

Lemma sinusoidal_init_prefix_witness :
  exists small large,
    sinusoidal_init 2 3 = Ok small /\ sinusoidal_init 4 3 = Ok large /\
    data small = firstn (2 * 3) (data large).
Proof.
  eexists _, _. split; [reflexivity|]. split; [reflexivity|].
  apply (@sinusoidal_init_prefix _ 2 4 3); [lia | reflexivity | reflexivity].
Defined.

Lemma seg_positions_absolute_witness :
  exists pos,
    seg_positions_of 3 batch = Ok pos /\
    item 0%Z pos (1 * 3 + 1) = 2%Z /\ item 0%Z pos (1 * 3 + 2) = 0%Z.
Proof.
  destruct (@seg_positions_absolute batch 2 3 4 eq_refl) as (pos & Hpos & _ & _ & Hitem).
  - reflexivity.
  - exists pos. split; [exact Hpos|].
    split; [apply (Hitem 1 1); lia | apply (Hitem 1 2); lia].
Defined.


Lemma attention_segment_count_mismatch_witness :
  exists obj,
    init (base "bert" 2) 3 4 "transformer" = Ok obj /\
    fst (forward odd_batch odd_batch odd_batch {| self := obj; trace := [] |}) =
    Raise RuntimeError_size_mismatch.
Proof.
  destruct (init (base "bert" 2) 3 4 "transformer") as [obj|e] eqn:Hinit;
    [|discriminate (eq_trans (eq_sym Hinit) (init_transformer 3 4 (supported_bert 2)))].
  assert (Hobj : encoder obj = base "bert" 2 /\ max_segments obj = 3 /\
                 max_segment_length obj = 4 /\ hidden_size obj = 2 /\
                 seg_encoder_type obj = "transformer"%string).
  { rewrite init_transformer in Hinit by apply supported_bert.
    now injection Hinit as <-. }
  destruct Hobj as (He & HMS & HMSL & HH & Hty).
  destruct (base_returns_states "bert" 2 (Tensor [1 * 2; 6] (data odd_batch))
              (Tensor [1 * 2; 6] (data odd_batch)) (Tensor [1 * 2; 6] (data odd_batch))
              eq_refl) as (E & HE & HshE).
  exists obj. split; [reflexivity|].
  rewrite (@attention_segment_count_mismatch _ {| self := obj; trace := [] |}
             odd_batch odd_batch odd_batch 1 2 6 E); cbn [self];
    rewrite ?He, ?HMS, ?HMSL, ?HH; auto; try lia.
  rewrite HshE. reflexivity.
Defined.

Lemma lstm_call_sequence_witness :
  exists obj E L out,
    init (base "bert" 2) 3 4 "lstm" = Ok obj /\
    nn_Linear (2 * 2) 2 (last_states 2 3 2 L) = Ok out /\
    trace (snd (forward batch ones zeros {| self := obj; trace := [] |})) =
    [Call_encoder (Tensor [2 * 3; 4] (data batch)) (Tensor [2 * 3; 4] (data ones))
                  (Tensor [2 * 3; 4] (data zeros));
     Call_seg_encoder (segment_summaries E 2 3 4 2);
     Call_down_project (last_states 2 3 2 L)].
Proof.
  destruct (init (base "bert" 2) 3 4 "lstm") as [obj|e] eqn:Hinit;
    [|discriminate (eq_trans (eq_sym Hinit) (init_lstm 3 4 (supported_bert 2)))].
  destruct (base_returns_states "bert" 2 (Tensor [2 * 3; 4] (data batch))
              (Tensor [2 * 3; 4] (data ones)) (Tensor [2 * 3; 4] (data zeros)) eq_refl)
    as (E & HE & HshE).
  destruct (@lstm_maps 2 (segment_summaries E 2 3 4 2) 2 3 eq_refl) as (L & HL & HshL).
  destruct (@linear_maps (2 * 2) 2 (last_states 2 3 2 L) 2 eq_refl) as (out & Hout & _).
  exists obj, E, L, out. split; [reflexivity|]. split; [exact Hout|].
  rewrite (@lstm_call_sequence _ _ (base "bert" 2) 3 4 obj batch ones zeros 2
             E L out []); auto; lia.
Defined.

Lemma attention_document_representation_witness :
  exists obj Y,
    init (base "bert" 2) 3 4 "transformer" = Ok obj /\
    fst (forward batch ones zeros {| self := obj; trace := [] |}) =
    Ok (output_of (max_over_segments Y 2 3 2)).
Proof.
  destruct (init (base "bert" 2) 3 4 "transformer") as [obj|e0] eqn:Hinit;
    [|discriminate (eq_trans (eq_sym Hinit) (init_transformer 3 4 (supported_bert 2)))].
  assert (He : exists e, seg_pos_embeddings obj = Some e).
  { rewrite init_transformer in Hinit by apply supported_bert.
    injection Hinit as <-. eexists. reflexivity. }
  destruct He as (e & He).
  destruct (base_returns_states "bert" 2 (Tensor [2 * 3; 4] (data batch))
              (Tensor [2 * 3; 4] (data ones)) (Tensor [2 * 3; 4] (data zeros)) eq_refl)
    as (E & HE & HshE).
  exists obj, (with_positions e batch (segment_summaries E 2 3 4 2) 2 3 4 2).
  split; [reflexivity|].
  rewrite (@attention_document_representation _ _ (base "bert" 2) 3 4 obj e
             batch ones zeros 2 E
             (with_positions e batch (segment_summaries E 2 3 4 2) 2 3 4 2) []);
    auto; try lia; reflexivity.
Defined.

Lemma single_segment_batch_accepted_witness :
  exists obj pos pooled,
    init (base "bert" 2) 3 4 "transformer" = Ok obj /\
    seg_positions_of 3 single_segment_batch = Ok pos /\
    item 0%Z pos (0 * 3 + 2) = 3%Z /\ item 0%Z pos (1 * 3 + 2) = 0%Z /\
    fst (forward single_segment_batch single_segment_batch single_segment_batch
           {| self := obj; trace := [] |}) = Ok (output_of pooled) /\
    shape pooled = [2; 2].
Proof.
  destruct (init (base "bert" 2) 3 4 "transformer") as [obj|e0] eqn:Hinit;
    [|discriminate (eq_trans (eq_sym Hinit) (init_transformer 3 4 (supported_bert 2)))].
  destruct (@single_segment_batch_accepted _ _ (base "bert" 2) 3 4 obj
              single_segment_batch single_segment_batch single_segment_batch 2 [] Hinit)
    as (pos & pooled & Hpos & _ & Hitem & Hfwd & Hsh);
    try reflexivity; try lia.
  - apply base_returns_states.
  - apply transformer_maps.
  - exists obj, pos, pooled. split; [reflexivity|]. split; [exact Hpos|].
    split; [apply (Hitem 0 2); lia|]. split; [apply (Hitem 1 2); lia|].
    split; [exact Hfwd | exact Hsh].
Defined.

Lemma forward_returns_pooled_twice_witness :
  exists o pooled,
    fst (forward batch ones zeros {| self := attention_object; trace := [] |}) = Ok o /\
    last_hidden_state o = Some pooled /\ hidden_states o = Some pooled /\
    attentions o = None.
Proof.
  assert (Hf : exists o, fst (forward batch ones zeros
                                {| self := attention_object; trace := [] |}) = Ok o)
    by (vm_compute; eexists; reflexivity).
  destruct Hf as (o & Ho).
  destruct (forward_returns_pooled_twice _ _ _ _ Ho)
    as (_ & pooled & H1 & H2 & _ & H4 & _).
  exists o, pooled. auto.
Defined.

Lemma lstm_accepts_equal_item_count_witness :
  exists obj pooled,
    init (base "bert" 2) 3 4 "lstm" = Ok obj /\
    fst (forward odd_batch odd_batch odd_batch {| self := obj; trace := [] |}) =
    Ok (output_of pooled) /\
    shape pooled = [1; 2].
Proof.
  destruct (init (base "bert" 2) 3 4 "lstm") as [obj|e] eqn:Hinit;
    [|discriminate (eq_trans (eq_sym Hinit) (init_lstm 3 4 (supported_bert 2)))].
  destruct (@lstm_accepts_equal_item_count _ _ (base "bert" 2) 3 4 obj
              odd_batch odd_batch odd_batch 1 2 6 [] Hinit)
    as (pooled & Hfwd & Hsh); try reflexivity; try lia.
  - apply base_returns_states.
  - apply lstm_maps.
  - apply linear_maps.
  - exists obj, pooled. split; [reflexivity|]. split; [exact Hfwd | exact Hsh].
Defined.

Lemma summaries_read_one_token_each_witness :
  exists E summaries,
    encoder_call (base "bert" 2) (Tensor [1 * 2; 6] (data odd_batch))
                 (Tensor [1 * 2; 6] (data odd_batch))
                 (Tensor [1 * 2; 6] (data odd_batch)) = Ok E /\
    fst (encode_segments odd_batch odd_batch odd_batch
           {| self := attention_object; trace := [] |}) = Ok summaries /\
    item f32_zero summaries ((0 * 3 + 1) * 2 + 0) =
    item f32_zero E ((0 * 6 + 4) * 2 + 0).
Proof.
  destruct (base_returns_states "bert" 2 (Tensor [1 * 2; 6] (data odd_batch))
              (Tensor [1 * 2; 6] (data odd_batch)) (Tensor [1 * 2; 6] (data odd_batch))
              eq_refl) as (E & HE & HshE).
  destruct (@summaries_read_one_token_each _ {| self := attention_object; trace := [] |}
              odd_batch odd_batch odd_batch 1 2 6 E)
    as (summaries & Hrun & _ & Hitem & _); try reflexivity; try (cbn; lia).
  - exact HE.
  - exact HshE.
  - exists E, summaries. split; [exact HE|]. split; [exact Hrun|].
    apply (Hitem 0 1 0); cbn; lia.
Defined.

End Concrete.

(* ================================================================= *)
(** ** The experiment grid *)

Section Grid.
Import Experiments.
Local Open Scope string_scope.

(** C10 fails as stated: the base models of a row are those listed for
    its language, so a base model listed for another language only has no
    row; the German grid has none for the French CamemBERT. *)
Lemma grid_is_not_full_cross_product :
  exists records,
    train_experiments = Ok records /\ ~ full_cross_product records.
Proof.
  exists (match train_experiments with Ok r => r | Raise _ => [] end).
  split; [vm_compute; reflexivity|].
  intros Hall.
  assert (Hone := Hall "de" "standard" "camembert/camembert-base-ccnet"
                       ltac:(cbn; auto) ltac:(cbn; auto) ltac:(vm_compute; auto)).
  vm_compute in Hone. discriminate Hone.
Qed.

(** C10, as the code has it.  The script builds a table with the columns
    model_name, type, lang and status that has exactly one row for every
    language code, every architecture type and every base model listed
    for that language, and no other row, and writes it as comma-separated
    text: a header line, then a line per row. *)
Theorem train_experiments_rows :
  exists records,
    train_experiments = Ok records /\
    columns (pd_DataFrame records) = ["model_name"; "type"; "lang"; "status"] /\
    (forall lang type models model_name,
        In lang languages -> In type types ->
        get_item model_names lang = Ok models -> In model_name models ->
        count_rows records (experiment model_name type lang) = 1) /\
    (forall r, In r records ->
        exists lang type models model_name,
          In lang languages /\ In type types /\
          get_item model_names lang = Ok models /\ In model_name models /\
          r = experiment model_name type lang) /\
    script =
    Ok (String.concat ""
          (csv_line ["model_name"; "type"; "lang"; "status"]
           :: map (fun r => csv_line (map snd r)) records)).
Proof.
  exists (match train_experiments with Ok r => r | Raise _ => [] end).
  split; [vm_compute; reflexivity|]. split; [vm_compute; reflexivity|].
  split; [|split].
  - intros lang type models model_name Hl Ht Hm Hn.
    cbn in Hl, Ht.
    repeat (destruct Hl as [<-|Hl]; [|]); try contradiction;
      cbn in Hm; injection Hm as <-;
      repeat (destruct Ht as [<-|Ht]; [|]); try contradiction;
      cbn in Hn;
      repeat (destruct Hn as [<-|Hn]; [|]); try contradiction;
      vm_compute; reflexivity.
  - intros r Hr. cbv in Hr.
    repeat (destruct Hr as [<-|Hr]; [|]); try contradiction;
      (eexists _, _, _, _;
       (split; [|split; [|split; [|split; [|reflexivity]]]]);
       [ | | reflexivity | ]; cbn; auto 10).
  - vm_compute. reflexivity.
Qed.

(** The row of the German BERT in the long-document grid. *)
Lemma train_experiments_rows_witness :
  exists records,
    train_experiments = Ok records /\
    count_rows records (experiment "deepset/gbert-base" "long" "de") = 1.
Proof.
  destruct train_experiments_rows as (records & Hrun & _ & Hone & _).
  exists records. split; [exact Hrun|].
  apply (Hone "de" "long" ["xlm-roberta-base"; "deepset/gbert-base"]).
  - cbn; auto.
  - cbn; auto.
  - reflexivity.
  - cbn; auto.
Defined.

(** *** The loops of the grid, for any dict and lists *)

Lemma for_each_models acc models type lang :
  for_each models (fun model_name train_experiments =>
      Ok (train_experiments ++ [experiment model_name type lang])%list) acc =
  Ok (acc ++ map (fun model_name => experiment model_name type lang) models)%list.
Proof.
  revert acc. induction models as [|m models IH]; intros acc; cbn [for_each map rbind].
  - now rewrite app_nil_r.
  - rewrite IH, <- app_assoc. reflexivity.
Qed.

Lemma for_each_types mn lang models types acc :
  get_item mn lang = Ok models ->
  for_each types (fun type train_experiments =>
      (models <- get_item mn lang ;;
       for_each models (fun model_name train_experiments =>
           Ok (train_experiments ++ [experiment model_name type lang])%list)
         train_experiments)%res) acc =
  Ok (acc ++ flat_map (fun type =>
              map (fun model_name => experiment model_name type lang) models) types)%list.
Proof.
  intros Hget. revert acc.
  induction types as [|type types IH]; intros acc; cbn [for_each flat_map].
  - now rewrite app_nil_r.
  - specialize (IH (acc ++ map (fun model_name => experiment model_name type lang)
                             models)%list).
    rewrite Hget in IH |- *. cbn [rbind] in IH |- *.
    rewrite for_each_models. cbn [rbind].
    rewrite IH, <- app_assoc. reflexivity.
Qed.

Lemma for_each_types_missing mn lang types acc :
  get_item mn lang = Raise KeyError -> types <> [] ->
  for_each types (fun type train_experiments =>
      (models <- get_item mn lang ;;
       for_each models (fun model_name train_experiments =>
           Ok (train_experiments ++ [experiment model_name type lang])%list)
         train_experiments)%res) acc = Raise KeyError.
Proof.
  intros Hget Hne. destruct types as [|type types]; [contradiction|].
  cbn [for_each]. rewrite Hget. reflexivity.
Qed.

Lemma get_item_raises {V} (d : dict V) k e : get_item d k = Raise e -> e = KeyError.
Proof.
  induction d as [|[k' v] d IH]; cbn [get_item].
  - intros H. now injection H as <-.
  - destruct (k' =? k); [discriminate | exact IH].
Qed.

Lemma get_item_cases {V} (d : dict V) k :
  (exists v, get_item d k = Ok v) \/ get_item d k = Raise KeyError.
Proof.
  destruct (get_item d k) as [v|e] eqn:Hget.
  - left. now exists v.
  - right. now rewrite (get_item_raises _ _ Hget).
Qed.

Lemma for_each_languages mn types languages acc :
  (forall lang, In lang languages -> exists models, get_item mn lang = Ok models) ->
  for_each languages (fun lang train_experiments =>
    for_each types (fun type train_experiments =>
      (models <- get_item mn lang ;;
       for_each models (fun model_name train_experiments =>
           Ok (train_experiments ++ [experiment model_name type lang])%list)
         train_experiments)%res)
      train_experiments) acc =
  Ok (acc ++ rows_in_loop_order mn types languages)%list.
Proof.
  unfold rows_in_loop_order. revert acc.
  induction languages as [|lang languages IH]; intros acc Hall; cbn [for_each flat_map].
  - now rewrite app_nil_r.
  - destruct (Hall lang (or_introl eq_refl)) as (models & Hget).
    rewrite (@for_each_types mn lang models types acc Hget). cbn [rbind].
    rewrite IH by (intros l Hl; apply Hall; now right).
    unfold models_of at 2. rewrite Hget, <- app_assoc. reflexivity.
Qed.

Lemma for_each_languages_missing mn types languages lang acc :
  types <> [] -> In lang languages -> get_item mn lang = Raise KeyError ->
  for_each languages (fun lang train_experiments =>
    for_each types (fun type train_experiments =>
      (models <- get_item mn lang ;;
       for_each models (fun model_name train_experiments =>
           Ok (train_experiments ++ [experiment model_name type lang])%list)
         train_experiments)%res)
      train_experiments) acc = Raise KeyError.
Proof.
  intros Hne Hin Hmiss. revert acc.
  induction languages as [|l languages IH]; intros acc; [contradiction|].
  cbn [for_each].
  destruct (get_item_cases mn l) as [(models & Hget)|Hget].
  - rewrite (@for_each_types mn l models types acc Hget). cbn [rbind].
    destruct Hin as [->|Hin]; [congruence|].
    now apply IH.
  - rewrite (@for_each_types_missing mn l types acc Hget Hne). reflexivity.
Qed.

Lemma for_each_languages_no_type mn languages acc :
  for_each languages (fun lang train_experiments =>
    for_each [] (fun type train_experiments =>
      (models <- get_item mn lang ;;
       for_each models (fun model_name train_experiments =>
           Ok (train_experiments ++ [experiment model_name type lang])%list)
         train_experiments)%res)
      train_experiments) acc = Ok acc.
Proof.
  revert acc. induction languages as [|l languages IH]; intros acc;
    cbn [for_each rbind]; auto.
Qed.

(** X10.  When every language has an entry in the dict, the loops build
    the rows language by language, type by type within a language and
    model by model within a type, in the order of the three lists. *)
Theorem grid_in_loop_order (mn : dict (list string)) (types languages : list string) :
  (forall lang, In lang languages -> exists models, get_item mn lang = Ok models) ->
  grid mn types languages = Ok (rows_in_loop_order mn types languages).
Proof.
  intros Hall. unfold grid. now rewrite for_each_languages.
Qed.

(** X11.  The loops fail, with [KeyError], exactly when there is at
    least one type and some language has no entry in the dict; with no
    type the dict is never read. *)
Theorem grid_raises_iff_language_missing (mn : dict (list string))
        (types languages : list string) :
  grid mn types languages = Raise KeyError <->
  types <> [] /\ exists lang, In lang languages /\ get_item mn lang = Raise KeyError.
Proof.
  split.
  - intros Hraise. destruct types as [|type types].
    + unfold grid in Hraise. rewrite for_each_languages_no_type in Hraise.
      discriminate.
    + split; [discriminate|].
      assert (Hdec : (forall lang, In lang languages ->
                                   exists models, get_item mn lang = Ok models)
                     \/ (exists lang, In lang languages /\
                                       get_item mn lang = Raise KeyError)).
      { clear Hraise. induction languages as [|l languages IH].
        - left. intros lang [].
        - destruct (get_item mn l) as [models|e] eqn:Hget.
          + destruct IH as [IH|(lang & Hin & Hmiss)].
            * left. intros lang [<-|Hin]; eauto.
            * right. exists lang. split; [now right | exact Hmiss].
          + right. exists l. split; [now left|].
            now rewrite (get_item_raises _ _ Hget) in Hget. }
      destruct Hdec as [Hall|Hmiss]; [|exact Hmiss].
      unfold grid in Hraise.
      rewrite (@for_each_languages mn (type :: types) languages [] Hall) in Hraise.
      discriminate.
  - intros [Hne (lang & Hin & Hmiss)]. unfold grid.
    now apply for_each_languages_missing with (lang := lang).
Qed.

(** *** The table and its text, for any rows *)

Lemma string_append_assoc (a b c : string) : ((a ++ b) ++ c = a ++ (b ++ c))%string.
Proof. induction a as [|ch a IH]; cbn; [reflexivity | now rewrite IH]. Qed.

Lemma add_keys_experiments rs cols :
  cols = ["model_name"; "type"; "lang"; "status"] ->
  fold_left add_keys (map experiment_of rs) cols = cols.
Proof.
  intros ->. induction rs as [|row rs IH]; cbn [map fold_left]; auto.
Qed.

Lemma csv_line_experiment row :
  plain row ->
  csv_line (map csv_field
              (map (find_value (experiment_of row))
                   ["model_name"; "type"; "lang"; "status"])) = plain_line row.
Proof.
  intros (Hm & Ht & Hl). destruct row as [[m t] l]. cbn [fst snd] in *.
  unfold experiment_of, plain_line. cbn [fst snd map].
  change (find_value (experiment m t l) "model_name") with (Some m).
  change (find_value (experiment m t l) "type") with (Some t).
  change (find_value (experiment m t l) "lang") with (Some l).
  change (find_value (experiment m t l) "status") with (Some "").
  unfold csv_field. rewrite Hm, Ht, Hl. cbn [needs_quoting].
  unfold csv_line. cbn [String.concat].
  rewrite !string_append_assoc. reflexivity.
Qed.

(** X12.  For any rows, at least one, whose model, type and language
    hold no comma, quote or line break, the table built from their
    records has the columns model_name, type, lang and status, and its
    text is the header line followed by one line per row, in order, of the
    form [model,type,lang,]: the empty status leaves every line ending
    with a comma. *)
Theorem experiments_table_text (rs : list (string * string * string)) :
  rs <> [] -> Forall plain rs ->
  columns (pd_DataFrame (map experiment_of rs)) =
  ["model_name"; "type"; "lang"; "status"] /\
  to_csv (pd_DataFrame (map experiment_of rs)) =
  String.concat "" (("model_name,type,lang,status" ++ String newline "")
                    :: map plain_line rs).
Proof.
  intros Hne Hplain.
  assert (Hcols : columns (pd_DataFrame (map experiment_of rs)) =
                  ["model_name"; "type"; "lang"; "status"]).
  { destruct rs as [|row rs]; [contradiction|].
    unfold pd_DataFrame. cbn [columns map fold_left].
    now apply add_keys_experiments. }
  split; [exact Hcols|].
  unfold to_csv. rewrite Hcols. f_equal. f_equal.
  unfold pd_DataFrame in *. cbn [columns rows] in *. rewrite Hcols.
  rewrite !map_map. apply map_ext_in. intros row Hin.
  apply csv_line_experiment. rewrite Forall_forall in Hplain. now apply Hplain.
Qed.

(** Two rows. *)
Lemma experiments_table_text_witness :
  to_csv (pd_DataFrame [experiment "xlm-roberta-base" "long" "de";
                        experiment "bert-base-cased" "standard" "en"]) =
  String.concat ""
    [ "model_name,type,lang,status" ++ String newline "";
      "xlm-roberta-base,long,de," ++ String newline "";
      "bert-base-cased,standard,en," ++ String newline "" ].
Proof.
  apply (proj2 (@experiments_table_text
                  [("xlm-roberta-base", "long", "de"); ("bert-base-cased", "standard", "en")]
                  ltac:(discriminate)
                  ltac:(repeat constructor))).
Defined.

(** The dict of the script and a language it has no entry for. *)
Lemma grid_in_loop_order_witness :
  grid model_names types ["de"; "all"] =
  Ok (rows_in_loop_order model_names types ["de"; "all"]).
Proof.
  apply grid_in_loop_order.
  intros lang [<-|[<-|[]]]; eexists; reflexivity.
Defined.

Lemma grid_raises_iff_language_missing_witness :
  grid model_names types ["de"; "en"] = Raise KeyError.
Proof.
  apply (proj2 (grid_raises_iff_language_missing model_names types ["de"; "en"])).
  split; [discriminate|]. exists "en". split; [cbn; auto | reflexivity].
Defined.

End Grid.
